(** * Update-based Conway's Game of Life: a shallow embedding of [script.js]

    The automaton engine of [script.js] (grid construction, toroidal cell
    access, neighbour enumeration, rule lookup, the update step and queue
    de-duplication) is embedded as executable definitions, and the properties
    of the design document are stated and settled against them.

    Modelling choices.
    - Coordinates and counts are JavaScript numbers holding integers; they are
      embedded as [Z], and [%] is the truncating remainder [Z.rem].  [NaN] is
      kept only where the code can produce it from well-formed integers
      (adding [undefined] to a count).  JavaScript numbers are doubles: [+]
      and [-] agree with [Z] as long as the result has magnitude at most
      [2^53], and round beyond.  Statements that depend on the value of a
      sum computed from arbitrary arguments ([x + 1], [x - 1]) therefore
      assume [safe_integer] arguments and [safe_dims] dimensions.
    - A cell state is a JavaScript value: the grid is created with the number
      [0], [toggleCell] stores booleans, the rule table stores numbers.
    - A grid is an array of row arrays.  Rows are objects that are shared
      between [grid] and [grid.slice()], so rows live in a store ([heap]) and
      an outer array is a list of row references.  Outer arrays are never
      written after their construction and are embedded as plain lists.
    - A row is a finite map from property keys to values: writing at a key
      outside the current range adds the property (JavaScript extends), and
      reading a missing property gives [undefined].
    - Reading or writing a property of [undefined] throws a [TypeError]; the
      step is therefore a computation in a state-and-exception monad over the
      program's global variables. *)

From stdpp Require Import gmap list.
From Stdlib Require Import ZArith Lia.

Local Open Scope Z_scope.

(** ** JavaScript values and the operators the engine applies to them *)

Inductive value : Type :=
| VNum (n : Z)
| VBool (b : bool)
| VUndef.

#[global] Instance value_eq_dec : EqDecision value.
Proof. solve_decision. Defined.

(** A number is an integer or [NaN] ([None]). *)
Definition number : Type := option Z.

Definition ToNumber (v : value) : number :=
  match v with
  | VNum n => Some n
  | VBool true => Some 1
  | VBool false => Some 0
  | VUndef => None
  end.

Definition ToBoolean (v : value) : bool :=
  match v with
  | VNum n => negb (n =? 0)
  | VBool b => b
  | VUndef => false
  end.

(** [a == b] on numbers, booleans and [undefined]. *)
Definition loose_eq (a b : value) : bool :=
  match a, b with
  | VUndef, VUndef => true
  | VUndef, _ | _, VUndef => false
  | _, _ =>
      match ToNumber a, ToNumber b with
      | Some m, Some n => m =? n
      | _, _ => false
      end
  end.

(** [!v] *)
Definition js_not (v : value) : value := VBool (negb (ToBoolean v)).

(** [acc + curr] for a number [acc] and a value [curr]. *)
Definition js_add (acc : number) (curr : value) : number :=
  match acc, ToNumber curr with
  | Some a, Some c => Some (a + c)
  | _, _ => None
  end.

(** [arr[i]] on an array embedded as a list: [None] stands for [undefined]. *)
Definition js_index {A : Type} (arr : list A) (i : Z) : option A :=
  if decide (0 <= i) then arr !! Z.to_nat i else None.

(** ** Cells, dimensions, rule tables *)

(** The object [{"x": ..., "y": ...}]. *)
Record cell : Type := mkCell { cell_x : Z; cell_y : Z }.

#[global] Instance cell_eq_dec : EqDecision cell.
Proof. solve_decision. Defined.

Record dims : Type := mkDims { width : Z; height : Z }.

(** [const dimensions = {width: 50, height: 50}] *)
Definition dimensions : dims := {| width := 50; height := 50 |}.

(** [Number.MAX_SAFE_INTEGER], [2^53 - 1]. *)
Definition MAX_SAFE_INTEGER : Z := 2 ^ 53 - 1.

(** [Number.isSafeInteger], on an integer. *)
Definition safe_integer (z : Z) : Prop :=
  - MAX_SAFE_INTEGER <= z <= MAX_SAFE_INTEGER.

(** The integers of magnitude at most [2^53] are doubles, and a sum or a
    remainder of doubles whose true value is such an integer is computed
    without rounding. *)
Definition exact_double (z : Z) : Prop := - 2 ^ 53 <= z <= 2 ^ 53.

(** Dimensions for which the sum [c % d + d] of the normalization is
    exact: it is below [2 * d].  (An array has fewer than [2^32]
    elements, so the dimensions of a grid that [makeGrid] has built are
    far below.) *)
Definition safe_dims (dim : dims) : Prop :=
  width dim <= 2 ^ 52 /\ height dim <= 2 ^ 52.

(** A rule table is an array of arrays of values, indexed by
    [oldState ? 1 : 0] and then by the neighbour count. *)
Definition ruletable : Type := list (list value).

(** [const rules = [[0,0,0,1,0,0,0,0,0], [0,0,1,1,0,0,0,0,0]]] *)
Definition rules : ruletable :=
  [ [VNum 0; VNum 0; VNum 0; VNum 1; VNum 0; VNum 0; VNum 0; VNum 0; VNum 0];
    [VNum 0; VNum 0; VNum 1; VNum 1; VNum 0; VNum 0; VNum 0; VNum 0; VNum 0] ].

(** ** The store and the global variables *)

Definition loc : Type := nat.

Record world : Type := mkWorld {
  heap : list (gmap Z value);  (* row objects, by reference *)
  grid : list loc;             (* [let grid]: the outer array *)
  queue : list cell            (* [let queue] *)
}.

Definition set_heap (h : list (gmap Z value)) (w : world) : world :=
  {| heap := h; grid := grid w; queue := queue w |}.

Inductive outcome (A : Type) : Type :=
| Done (a : A) (w : world)
| TypeError (w : world).

Arguments Done {A} a w.
Arguments TypeError {A} w.

Definition M (A : Type) : Type := world -> outcome A.

Definition ret {A : Type} (a : A) : M A := fun w => Done a w.

Definition bind {A B : Type} (m : M A) (k : A -> M B) : M B :=
  fun w =>
    match m w with
    | Done a w' => k a w'
    | TypeError w' => TypeError w'
    end.

Definition throw {A : Type} : M A := fun w => TypeError w.

Declare Scope js_scope.
Delimit Scope js_scope with js.
Notation "'let*' x ':=' m 'in' k" := (bind m (fun x => k))
  (at level 10, x name, m at level 100, k at level 200) : js_scope.
Local Open Scope js_scope.

(** [mapM]: [Array.prototype.map] with an effectful callback. *)
Fixpoint mapM {A B : Type} (f : A -> M B) (l : list A) : M (list B) :=
  match l with
  | [] => ret []
  | a :: l' =>
      let* b := f a in
      let* bs := mapM f l' in
      ret (b :: bs)
  end.

(** ** Grid construction *)

(** The inner loop of [makeGrid]: [row.push(0)] for [y = 0 .. height-1]. *)
Definition new_row (height : Z) : gmap Z value :=
  foldl (fun r y => <[y := VNum 0]> r) ∅ (seqZ 0 height).

(** Allocation of a fresh row object. *)
Definition alloc (r : gmap Z value) : M loc :=
  fun w => Done (length (heap w)) (set_heap (heap w ++ [r]) w).

(** The outer loop of [makeGrid], with [n] iterations left. *)
Fixpoint makeGrid_loop (n : nat) (height : Z) (g : list loc) : M (list loc) :=
  match n with
  | O => ret g
  | S n' =>
      let* l := alloc (new_row height) in
      makeGrid_loop n' height (g ++ [l])
  end.

(** [function makeGrid(width, height)]: the loop [for (x = 0; x < width; x++)]
    runs [width] times, and not at all when [width <= 0]. *)
Definition makeGrid (width height : Z) : M (list loc) :=
  makeGrid_loop (Z.to_nat width) height [].

(** ** The engine, for a given configuration *)

Section Engine.

Variable dim : dims.
Variable tbl : ruletable.

(** [(c % d + d) % d].  For [d = 0] JavaScript gives [NaN], which is no
    integer: the statements below that depend on [wrap] are for positive
    dimensions. *)
Definition wrap (c d : Z) : Z := Z.rem (Z.rem c d + d) d.

(** [function getCellObj(x, y)] *)
Definition getCellObj (x y : Z) : cell :=
  {| cell_x := wrap x (width dim); cell_y := wrap y (height dim) |}.

(** [thisGrid[x][y]] as a read.  [thisGrid[x]] is [undefined] outside the
    outer array, and a property of [undefined] cannot be read.  (A reference
    without a row in the store does not arise: references come from
    [alloc].) *)
Definition read (thisGrid : list loc) (x y : Z) : M value :=
  fun w =>
    match js_index thisGrid x with
    | None => TypeError w
    | Some l =>
        match heap w !! l with
        | None => TypeError w
        | Some r => Done (default VUndef (r !! y)) w
        end
    end.

(** [thisGrid[x][y] = state]: throws when [thisGrid[x]] is [undefined];
    otherwise sets the property [y] of the row, inside its range or not. *)
Definition write (thisGrid : list loc) (x y : Z) (state : value) : M value :=
  fun w =>
    match js_index thisGrid x with
    | None => TypeError w
    | Some l =>
        match heap w !! l with
        | None => TypeError w
        | Some r => Done state (set_heap (<[l := <[y := state]> r]> (heap w)) w)
        end
    end.

(** [function getCell(x, y)] *)
Definition getCell (x y : Z) : M value :=
  fun w => read (grid w) (wrap x (width dim)) (wrap y (height dim)) w.

(** [function setCell(x, y, state)] *)
Definition setCell (x y : Z) (state : value) : M unit :=
  fun w => (let* _ := write (grid w) x y state in ret tt) w.

(** [function setCellInGrid(thisGrid, x, y, state)] *)
Definition setCellInGrid (thisGrid : list loc) (x y : Z) (state : value)
  : M value :=
  write thisGrid x y state.

(** [function toggleCell(x, y)] *)
Definition toggleCell (x y : Z) : M value :=
  fun w =>
    (let* v := read (grid w) x y in
     write (grid w) x y (js_not v)) w.

(** [function addCellToQueue(x, y)] *)
Definition addCellToQueue (x y : Z) : M unit :=
  fun w =>
    Done tt {| heap := heap w; grid := grid w;
               queue := queue w ++ [mkCell x y] |}.

(** [function getNeighborCells(x, y)] *)
Definition getNeighborCells (x y : Z) : list cell :=
  [ getCellObj (x + 1) y;
    getCellObj (x + 1) (y + 1);
    getCellObj x (y + 1);
    getCellObj (x - 1) (y + 1);
    getCellObj (x - 1) y;
    getCellObj (x - 1) (y - 1);
    getCellObj x (y - 1);
    getCellObj (x + 1) (y - 1) ].

(** [function getNeighborStates(x, y)] *)
Definition getNeighborStates (x y : Z) : M (list value) :=
  mapM (fun c => getCell (cell_x c) (cell_y c)) (getNeighborCells x y).

(** [function getNeighborCount(x, y)]:
    [reduce((acc, curr) => acc += curr, 0)] *)
Definition getNeighborCount (x y : Z) : M number :=
  let* states := getNeighborStates x y in
  ret (fold_left js_add states (Some 0)).

(** [rules[oldState ? 1 : 0][count]]; a property of [undefined] cannot be
    read, a missing entry (or the key [NaN]) is [undefined]. *)
Definition nextState (oldState : value) (count : number) : M value :=
  match js_index tbl (if ToBoolean oldState then 1 else 0) with
  | None => throw
  | Some r =>
      ret (match count with
           | Some n => default VUndef (js_index r n)
           | None => VUndef
           end)
  end.

(** The callback of [queue.forEach] in [updateCells]; [nextQueue] is the
    local array the callback pushes to. *)
Definition updateCell (nextGrid : list loc) (nextQueue : list cell) (c : cell)
  : M (list cell) :=
  let* oldState := getCell (cell_x c) (cell_y c) in
  let* count := getNeighborCount (cell_x c) (cell_y c) in
  let* newState := nextState oldState count in
  if negb (loose_eq newState oldState) then
    let nextQueue' := nextQueue ++ getNeighborCells (cell_x c) (cell_y c) in
    let* _ := setCellInGrid nextGrid (cell_x c) (cell_y c) newState in
    ret nextQueue'
  else ret nextQueue.

(** [queue.forEach(cell => ...)] *)
Fixpoint forEach_update (nextGrid : list loc) (qu : list cell)
    (nextQueue : list cell) : M (list cell) :=
  match qu with
  | [] => ret nextQueue
  | c :: qu' =>
      let* nextQueue' := updateCell nextGrid nextQueue c in
      forEach_update nextGrid qu' nextQueue'
  end.

End Engine.

(** [e.x == cell.x && e.y == cell.y] *)
Definition same_cell (e c : cell) : bool :=
  (cell_x e =? cell_x c) && (cell_y e =? cell_y c).

(** The callback of [qu.forEach] in [cleanQueue]:
    [if (!unique.some(e => ...)) { unique.push(cell); }] *)
Definition keep (unique : list cell) (c : cell) : list cell :=
  if existsb (fun e => same_cell e c) unique then unique else unique ++ [c].

(** [function cleanQueue(qu)] *)
Definition cleanQueue (qu : list cell) : list cell := fold_left keep qu [].

(** [grid.slice()]: a new outer array holding the same row references. *)
Definition slice (g : list loc) : list loc := g.

(** [function updateCells()] *)
Definition updateCells (dim : dims) (tbl : ruletable) : M unit :=
  fun w =>
    let nextGrid := slice (grid w) in
    match forEach_update dim tbl nextGrid (queue w) [] w with
    | Done nextQueue w' =>
        Done tt {| heap := heap w'; grid := nextGrid;
                   queue := cleanQueue nextQueue |}
    | TypeError w' => TypeError w'
    end.

(** The program's initial state: [grid = makeGrid(width, height)],
    [queue = []]. *)
Definition empty_world : world := {| heap := []; grid := []; queue := [] |}.

Definition init (dim : dims) : outcome unit :=
  match makeGrid (width dim) (height dim) empty_world with
  | Done g w => Done tt {| heap := heap w; grid := g; queue := [] |}
  | TypeError w => TypeError w
  end.

(** ** Observations used in the statements *)

(** A coordinate is normalized: [0 <= x < W] and [0 <= y < H]. *)
Definition in_range (dim : dims) (c : cell) : Prop :=
  0 <= cell_x c < width dim /\ 0 <= cell_y c < height dim.

(** The values a cell of the automaton holds: [0], [1], [false], [true]. *)
Definition is_state (v : value) : bool :=
  match v with
  | VNum 0 | VNum 1 | VBool _ => true
  | _ => false
  end.

(** The grid has [W] rows and every row holds a state at each of [0..H-1]. *)
Definition wf_grid (dim : dims) (w : world) : Prop :=
  length (grid w) = Z.to_nat (width dim) /\
  forall (i : nat) (l : loc), grid w !! i = Some l ->
    exists r, heap w !! l = Some r /\
      forall y, 0 <= y < height dim ->
        exists v, r !! y = Some v /\ is_state v = true.

(** The rule table has a dead and an alive case, of nine states each. *)
Definition wf_tbl (tbl : ruletable) : Prop :=
  length tbl = 2%nat /\
  Forall
    (fun r => length r = 9%nat /\ Forall (fun v => is_state v = true) r)
    tbl.

(** [wf_grid] as a check that can be run. *)
Definition wf_gridb (dim : dims) (w : world) : bool :=
  bool_decide (length (grid w) = Z.to_nat (width dim)) &&
  forallb
    (fun l =>
       match heap w !! l with
       | Some r =>
           forallb
             (fun y => match r !! y with
                       | Some v => is_state v
                       | None => false
                       end)
             (seqZ 0 (height dim))
       | None => false
       end)
    (grid w).

#[global] Instance in_range_dec (dim : dims) (c : cell) :
  Decision (in_range dim c).
Proof. unfold in_range. apply _. Defined.

(** Whether the cell [c] is alive, as [getCell] reads it and a condition
    tests it. *)
Definition alive_at (dim : dims) (w : world) (c : cell) : bool :=
  match getCell dim (cell_x c) (cell_y c) w with
  | Done v _ => ToBoolean v
  | TypeError _ => false
  end.

(** The alive cells of the grid, column by column. *)
Definition alive_cells (dim : dims) (w : world) : list (Z * Z) :=
  flat_map
    (fun x =>
       flat_map
         (fun y => if alive_at dim w (mkCell x y) then [(x, y)] else [])
         (seqZ 0 (height dim)))
    (seqZ 0 (width dim)).

(** The number of alive cells among the neighbours of [c]. *)
Definition live_count (dim : dims) (w : world) (c : cell) : Z :=
  foldr (fun n acc => Z.b2z (alive_at dim w n) + acc) 0
    (getNeighborCells dim (cell_x c) (cell_y c)).

(** The rule table as a transition on alive/dead. *)
Definition rule_bit (tbl : ruletable) (old : bool) (n : Z) : bool :=
  match js_index tbl (if old then 1 else 0) with
  | Some r =>
      match js_index r n with
      | Some v => ToBoolean v
      | None => false
      end
  | None => false
  end.

(** The value and the world of an outcome. *)
Definition value_of {A : Type} (o : outcome A) : option A :=
  match o with
  | Done a _ => Some a
  | TypeError _ => None
  end.

Definition world_of {A : Type} (o : outcome A) : world :=
  match o with
  | Done _ w => w
  | TypeError w => w
  end.

(** Running a command of the driver after another one. *)
Definition andThen {A B : Type} (o : outcome A) (m : M B) : outcome B :=
  match o with
  | Done _ w => m w
  | TypeError w => TypeError w
  end.

(** The [mousedown] handler at grid position [(x, y)], without the drawing:
    [toggleCell(x, y); addCellToQueue(x, y)]. *)
Definition click (x y : Z) : M unit :=
  let* _ := toggleCell x y in addCellToQueue x y.

(** [n] consecutive calls of [updateCells]. *)
Fixpoint ticks (dim : dims) (tbl : ruletable) (n : nat) : M unit :=
  match n with
  | O => ret tt
  | S n' => let* _ := updateCells dim tbl in ticks dim tbl n'
  end.

(** No two elements have the same normalized coordinates. *)
Definition norm_distinct (dim : dims) (l : list cell) : Prop :=
  NoDup (map (fun c => getCellObj dim (cell_x c) (cell_y c)) l).

(** The de-duplication of the design document, in its words: the input with
    duplicate coordinates removed, first occurrence kept.  The element at
    position [i] stays exactly when it does not occur before position [i]. *)
Definition first_seen (xs : list cell) : list cell :=
  concat (imap (fun i c => if decide (c ∈ take i xs) then [] else [c]) xs).

(** ** Scenarios *)

(** A session of the page: the grid is created and the cells of [clicks]
    are clicked in order. *)
Definition clicked (dim : dims) (clicks : list cell) : outcome unit :=
  fold_left (fun o c => andThen o (click (cell_x c) (cell_y c)))
    clicks (init dim).

(** The alive cells and the queue of an outcome that returned. *)
Definition observe (dim : dims) (o : outcome unit)
  : option (list (Z * Z) * list cell) :=
  match o with
  | Done _ w => Some (alive_cells dim w, queue w)
  | TypeError _ => None
  end.

(** The blinker scenario: a 5x5 grid, the horizontal tri-cell alive. *)
Definition grid5 : dims := {| width := 5; height := 5 |}.

Definition tri_cell : list cell := [mkCell 1 2; mkCell 2 2; mkCell 3 2].

(** The tri-cell followed by the neighbours of its cells, each once. *)
Definition tri_queue : list cell :=
  cleanQueue
    (tri_cell ++
     flat_map (fun c => getNeighborCells grid5 (cell_x c) (cell_y c)) tri_cell).

(** The grid with the cells of [alive] toggled on and the cells of [qu]
    enqueued in order. *)
Definition seeded (dim : dims) (alive qu : list cell) : outcome unit :=
  fold_left (fun o c => andThen o (addCellToQueue (cell_x c) (cell_y c))) qu
    (fold_left
       (fun o c =>
          andThen o (let* _ := toggleCell (cell_x c) (cell_y c) in ret tt))
       alive (init dim)).

(** One step of the blinker scenario with the queue in the order [qu]. *)
Definition blinker_step (qu : list cell) : option (list (Z * Z) * list cell) :=
  observe grid5 (andThen (seeded grid5 tri_cell qu) (updateCells grid5 rules)).

(** The world of the blinker scenario before the step, with the queue
    [tri_queue]. *)
Definition blinker_world : world :=
  world_of (seeded grid5 tri_cell tri_queue).

(** The world of the blinker scenario before the step, with the queue in
    the order [qu]. *)
Definition blinker_start (qu : list cell) : world :=
  {| heap := heap blinker_world; grid := grid blinker_world; queue := qu |}.

(** Two click orders on the page's grid. *)
Definition clicks_a : list cell := [mkCell 1 2; mkCell 2 2; mkCell 3 2].
Definition clicks_b : list cell := [mkCell 2 2; mkCell 1 2; mkCell 3 2].

Definition world_a : world := world_of (clicked dimensions clicks_a).
Definition world_b : world := world_of (clicked dimensions clicks_b).

(** ** The callback's decision, and more scenarios *)

(** Whether the callback of [updateCells] finds [newState != oldState] for
    the cell [c]: the first three lines of the callback. *)
Definition changes (dim : dims) (tbl : ruletable) (c : cell) : M bool :=
  let* oldState := getCell dim (cell_x c) (cell_y c) in
  let* count := getNeighborCount dim (cell_x c) (cell_y c) in
  let* newState := nextState tbl oldState count in
  ret (negb (loose_eq newState oldState)).

(** The 5x5 grid after a click on (2,2): one alive cell, queued. *)
Definition lone_world : world := world_of (clicked grid5 [mkCell 2 2]).

(** The 5x5 grid after clicks on the four cells of a block. *)
Definition block_world : world :=
  world_of (clicked grid5 [mkCell 1 1; mkCell 1 2; mkCell 2 1; mkCell 2 2]).

(** ** The chart of queue lengths *)

(** [var dps = []; let xVal = 0; let yVal = 100;]: the data points
    [{x: ..., y: ...}] of the chart and the two counters. *)
Record chart : Type := mkChart { dps : list (Z * Z); xVal : Z; yVal : Z }.

Definition chart0 : chart := {| dps := []; xVal := 0; yVal := 100 |}.

(** [let dataLength = 20] *)
Definition dataLength : Z := 20.

(** [count || 1] *)
Definition or_1 (count : value) : value :=
  if ToBoolean count then count else VNum 1.

(** The loop of [updateChart] with [n] iterations left:
    [yVal = queue.length; dps.push({x: xVal, y: yVal}); xVal++]. *)
Fixpoint updateChart_loop (n : nat) (qlen : Z) (ch : chart) : chart :=
  match n with
  | O => ch
  | S n' =>
      updateChart_loop n' qlen
        {| dps := dps ch ++ [(xVal ch, qlen)];
           xVal := xVal ch + 1;
           yVal := qlen |}
  end.

(** [function updateChart(count)], without [chart.render()], which only
    paints.  The loop [for (j = 0; j < count; j++)] runs [count] times for
    an integer [count], and not at all when [count <= 0]; [dps.shift()]
    removes the first point. *)
Definition updateChart (count : value) (w : world) (ch : chart) : chart :=
  let count := or_1 count in
  let n := match ToNumber count with
           | Some n => Z.to_nat n
           | None => O
           end in
  let ch1 := updateChart_loop n (Z.of_nat (length (queue w))) ch in
  if Z.of_nat (length (dps ch1)) >? dataLength
  then {| dps := tail (dps ch1); xVal := xVal ch1; yVal := yVal ch1 |}
  else ch1.

(** [function tick()]: [updateCells(); updateChart(); draw(ctx)], without
    the drawing.  An exception of [updateCells] ends the tick. *)
Definition tick (dim : dims) (tbl : ruletable) (w : world) (ch : chart)
  : outcome unit * chart :=
  match updateCells dim tbl w with
  | Done _ w' => (Done tt w', updateChart VUndef w' ch)
  | TypeError w' => (TypeError w', ch)
  end.

(** The chart shows a window of [dataLength] consecutive ticks that ends
    just before [xVal]. *)
Definition chart_window (ch : chart) : Prop :=
  fst <$> dps ch = seqZ (xVal ch - dataLength) dataLength.

(** No queued cell is a neighbour of another queued cell. *)
Definition apart (dim : dims) (qu : list cell) : Prop :=
  Forall
    (fun c =>
       Forall
         (fun d => c <> d -> d ∉ getNeighborCells dim (cell_x c) (cell_y c))
         qu)
    qu.

(** The 5x5 grid after clicks on (0,0) and (2,2), which are not neighbours. *)
Definition pair_world : world :=
  world_of (clicked grid5 [mkCell 0 0; mkCell 2 2]).

(** A grid two cells wide. *)
Definition narrow : dims := {| width := 2; height := 5 |}.

(** The chart when the script has run: [updateChart(dataLength)] on the
    initial program state. *)
Definition chart_loaded : chart :=
  updateChart (VNum dataLength) (world_of (init dimensions)) chart0.

(** * Properties *)

(** ** Toroidal wrap *)

Lemma wrap_mod (c d : Z) : 0 < d -> wrap c d = c mod d.
Proof.
  intros Hd. unfold wrap.
  pose proof (Z.rem_bound_abs c d) as Habs.
  pose proof (Z.quot_rem c d ltac:(lia)) as Hqr.
  assert (Hr : - d < Z.rem c d < d) by lia.
  rewrite Z.rem_mod_nonneg by lia.
  replace (Z.rem c d + d) with (c + (1 - Z.quot c d) * d) by lia.
  apply Z_mod_plus_full.
Qed.

Lemma wrap_range (c d : Z) : 0 < d -> 0 <= wrap c d < d.
Proof. intros Hd. rewrite wrap_mod by done. apply Z.mod_pos_bound, Hd. Qed.

Lemma wrap_shift (c d k : Z) : 0 < d -> wrap (c + k * d) d = wrap c d.
Proof. intros Hd. rewrite !wrap_mod by done. apply Z_mod_plus_full. Qed.

Lemma getCellObj_in_range (dim : dims) (x y : Z) :
  0 < width dim -> 0 < height dim -> in_range dim (getCellObj dim x y).
Proof. intros HW HH. split; simpl; by apply wrap_range. Qed.

(** C5. For positive dimensions and all integers [x], [y], the normalization
    [((c % d) + d) % d] lands in [[0, W)] for [x] and in [[0, H)] for [y],
    and [getCell(x, y)] is [getCell(x + k*W, y + k*H)] for every integer
    [k]. *)
Theorem getCell_toroidal (dim : dims) (w : world) (x y k : Z) :
  0 < width dim -> 0 < height dim ->
  0 <= wrap x (width dim) < width dim /\
  0 <= wrap y (height dim) < height dim /\
  getCell dim x y w = getCell dim (x + k * width dim) (y + k * height dim) w.
Proof.
  intros HW HH. split; [by apply wrap_range|].
  split; [by apply wrap_range|].
  unfold getCell. by rewrite !wrap_shift.
Qed.

Lemma getCell_toroidal_witness :
  0 <= wrap (-4) 5 < 5 /\ 0 <= wrap 7 5 < 5 /\
  getCell grid5 (-4) 7 blinker_world =
  getCell grid5 (-4 + 3 * 5) (7 + 3 * 5) blinker_world.
Proof.
  apply (getCell_toroidal grid5 blinker_world (-4) 7 3);
    vm_compute; reflexivity.
Defined.

(** ** Reads do not change the store *)

Lemma js_index_Some {A : Type} (arr : list A) (i : Z) (a : A) :
  js_index arr i = Some a -> 0 <= i /\ arr !! Z.to_nat i = Some a.
Proof. unfold js_index. case_decide; [done|discriminate]. Qed.

Lemma js_index_in {A : Type} (arr : list A) (i : Z) :
  0 <= i < Z.of_nat (length arr) -> is_Some (js_index arr i).
Proof.
  intros Hi. unfold js_index. rewrite decide_True by lia.
  apply lookup_lt_is_Some. lia.
Qed.

Lemma read_pure (g : list loc) (x y : Z) (w w' : world) (v : value) :
  read g x y w = Done v w' -> w' = w.
Proof.
  unfold read. destruct (js_index g x); [|discriminate].
  destruct (heap w !! l); [|discriminate]. by intros [= _ ->].
Qed.

Lemma getCell_pure (dim : dims) (x y : Z) (w w' : world) (v : value) :
  getCell dim x y w = Done v w' -> w' = w.
Proof. apply read_pure. Qed.

Lemma getNeighborStates_pure (dim : dims) (x y : Z) (w w' : world)
    (vs : list value) :
  getNeighborStates dim x y w = Done vs w' -> w' = w.
Proof.
  unfold getNeighborStates. generalize (getNeighborCells dim x y).
  intros l. revert vs w'. induction l as [|c l IH]; intros vs w'; simpl.
  - by intros [= _ ->].
  - unfold bind at 1.
    destruct (getCell dim (cell_x c) (cell_y c) w) as [v w1|] eqn:E;
      [|discriminate].
    apply getCell_pure in E as ->. unfold bind at 1.
    destruct (mapM _ l w) as [bs w2|] eqn:E2; [|discriminate].
    specialize (IH _ _ eq_refl) as ->. by intros [= _ ->].
Qed.

Lemma getNeighborCount_pure (dim : dims) (x y : Z) (w w' : world)
    (n : number) :
  getNeighborCount dim x y w = Done n w' -> w' = w.
Proof.
  unfold getNeighborCount, bind.
  destruct (getNeighborStates dim x y w) as [vs w1|] eqn:E; [|discriminate].
  apply getNeighborStates_pure in E as ->. by intros [= _ ->].
Qed.

Lemma nextState_pure (tbl : ruletable) (old : value) (n : number)
    (w w' : world) (v : value) :
  nextState tbl old n w = Done v w' -> w' = w.
Proof.
  unfold nextState. destruct (js_index tbl _); [|discriminate].
  by intros [= _ ->].
Qed.

(** ** Well-formed grids: reads and counts *)

Section WellFormed.

Variable dim : dims.
Variable tbl : ruletable.
Hypothesis HW : 0 < width dim.
Hypothesis HH : 0 < height dim.

Lemma read_wf (w : world) (x y : Z) :
  wf_grid dim w -> 0 <= x < width dim -> 0 <= y < height dim ->
  exists v, read (grid w) x y w = Done v w /\ is_state v = true.
Proof.
  clear HW HH. intros [Hlen Hrows] Hx Hy. unfold read.
  destruct (js_index_in (grid w) x) as [l Hl]; [lia|]. rewrite Hl.
  apply js_index_Some in Hl as [_ Hl].
  destruct (Hrows _ _ Hl) as (r & Hr & Hst). rewrite Hr.
  destruct (Hst y Hy) as (v & Hv & Hs). rewrite Hv. by exists v.
Qed.

Lemma getCell_wf (w : world) (x y : Z) :
  wf_grid dim w ->
  exists v, getCell dim x y w = Done v w /\ is_state v = true.
Proof. intros Hwf. apply read_wf; [done|by apply wrap_range..]. Qed.

Lemma mapM_getCell_wf (w : world) (l : list cell) :
  wf_grid dim w ->
  exists vs, mapM (fun c => getCell dim (cell_x c) (cell_y c)) l w = Done vs w
    /\ length vs = length l /\ Forall (fun v => is_state v = true) vs.
Proof.
  intros Hwf. induction l as [|c l (vs & E & Hlen & Hall)]; simpl.
  - by exists [].
  - destruct (getCell_wf w (cell_x c) (cell_y c) Hwf) as (v & Ev & Hv).
    exists (v :: vs). unfold bind. rewrite Ev, E. simpl.
    split; [done|]. split; [by rewrite Hlen|by constructor].
Qed.

Lemma is_state_number (v : value) :
  is_state v = true -> exists b, ToNumber v = Some b /\ 0 <= b <= 1.
Proof.
  destruct v as [[|[| |]|]|[|]|]; simpl; try discriminate; intros _;
    eexists; (split; [reflexivity|lia]).
Qed.

Lemma sum_states (vs : list value) (a : Z) :
  Forall (fun v => is_state v = true) vs ->
  exists n, fold_left js_add vs (Some a) = Some (a + n)
    /\ 0 <= n <= Z.of_nat (length vs).
Proof.
  intros Hall. revert a. induction Hall as [|v vs Hv _ IH]; intros a; simpl.
  - exists 0. split; [f_equal; lia|lia].
  - destruct (is_state_number v Hv) as (b & -> & Hb).
    destruct (IH (a + b)) as (n & -> & Hn).
    exists (b + n). split; [f_equal; lia|lia].
Qed.

Lemma getNeighborCount_wf (w : world) (x y : Z) :
  wf_grid dim w ->
  exists n, getNeighborCount dim x y w = Done (Some n) w /\ 0 <= n <= 8.
Proof.
  intros Hwf. unfold getNeighborCount, getNeighborStates, bind.
  destruct (mapM_getCell_wf w (getNeighborCells dim x y) Hwf)
    as (vs & -> & Hlen & Hall).
  destruct (sum_states vs 0 Hall) as (n & -> & Hn).
  exists n. split; [done|]. rewrite Hlen in Hn. simpl in Hn. lia.
Qed.

Lemma nextState_wf (w : world) (old : value) (n : Z) :
  wf_tbl tbl -> 0 <= n <= 8 ->
  exists v, nextState tbl old (Some n) w = Done v w /\ is_state v = true.
Proof.
  intros [Hlen Hall] Hn. unfold nextState.
  destruct (js_index_in tbl (if ToBoolean old then 1 else 0)) as [r Hr].
  { rewrite Hlen. destruct (ToBoolean old); lia. }
  rewrite Hr. apply js_index_Some in Hr as [_ Hr].
  apply list_elem_of_lookup_2 in Hr.
  rewrite Forall_forall in Hall. destruct (Hall _ Hr) as [Hr9 Hst].
  destruct (js_index_in r n) as [v Hv]; [lia|]. rewrite Hv.
  exists v. split; [done|].
  apply js_index_Some in Hv as [_ Hv]. apply list_elem_of_lookup_2 in Hv.
  rewrite Forall_forall in Hst. by apply Hst.
Qed.

Lemma write_wf (w : world) (x y : Z) (s : value) :
  wf_grid dim w -> is_state s = true -> 0 <= x < width dim ->
  exists w', write (grid w) x y s w = Done s w' /\ wf_grid dim w'
    /\ grid w' = grid w /\ queue w' = queue w.
Proof.
  clear HW HH. intros [Hlen Hrows] Hs Hx. unfold write.
  destruct (js_index_in (grid w) x) as [l Hl]; [lia|]. rewrite Hl.
  apply js_index_Some in Hl as [_ Hl].
  destruct (Hrows _ _ Hl) as (r & Hr & _). rewrite Hr.
  eexists. split; [done|]. split; [|done].
  split; [done|]. simpl. intros i l' Hl'.
  destruct (Hrows _ _ Hl') as (r' & Hr' & Hst').
  destruct (decide (l = l')) as [<-|Hne].
  - exists (<[y := s]> r). split.
    + apply list_lookup_insert_eq. by eapply lookup_lt_Some.
    + intros y' Hy'. destruct (decide (y = y')) as [<-|Hy].
      * exists s. by rewrite lookup_insert_eq.
      * rewrite lookup_insert_ne by done.
        assert (r' = r) as -> by congruence. by apply Hst'.
  - exists r'. split; [|done]. by rewrite list_lookup_insert_ne.
Qed.

End WellFormed.

Lemma wf_gridb_sound (dim : dims) (w : world) :
  wf_gridb dim w = true -> wf_grid dim w.
Proof.
  unfold wf_gridb. rewrite andb_true_iff, forallb_forall.
  intros [Hlen%bool_decide_eq_true Hrows]. split; [done|].
  intros i l Hl. apply list_elem_of_lookup_2, list_elem_of_In in Hl.
  specialize (Hrows l Hl). destruct (heap w !! l) as [r|]; [|discriminate].
  exists r. split; [done|]. intros y Hy.
  rewrite forallb_forall in Hrows.
  assert (Hin : In y (seqZ 0 (height dim))).
  { apply list_elem_of_In, elem_of_seqZ. lia. }
  specialize (Hrows y Hin). destruct (r !! y) as [v|]; [|discriminate].
  by exists v.
Qed.

Lemma wf_tbl_rules : wf_tbl rules.
Proof. split; [reflexivity|]. repeat constructor. Qed.

(** ** Neighbours *)

Lemma getNeighborCells_in_range (dim : dims) (x y : Z) (n : cell) :
  0 < width dim -> 0 < height dim ->
  n ∈ getNeighborCells dim x y -> in_range dim n.
Proof.
  intros HW HH Hn. unfold getNeighborCells in Hn.
  repeat (apply elem_of_cons in Hn as [->|Hn];
          [by apply getCellObj_in_range|]).
  by apply elem_of_nil in Hn.
Qed.

Lemma mod_apart (a b d : Z) : 0 < b - a < d -> a mod d <> b mod d.
Proof.
  intros Hab Heq. symmetry in Heq. apply Z.cong_iff_0 in Heq.
  rewrite Z.mod_small in Heq by lia. lia.
Qed.

(** The sums [getNeighborCells(x, y)] computes on safe integers, and the
    numbers its calls of [getCellObj] compute from them, are exact: on
    these arguments the doubles of the code and the integers of the
    embedding agree. *)
Lemma wrap_exact (c d : Z) :
  exact_double c -> 0 < d <= 2 ^ 52 ->
  exact_double (Z.rem c d) /\ exact_double (Z.rem c d + d) /\
  exact_double (wrap c d).
Proof.
  unfold exact_double, wrap. intros Hc Hd.
  assert (H52 : 2 ^ 53 = 2 * 2 ^ 52) by reflexivity.
  pose proof (Z.rem_bound_abs c d ltac:(lia)) as H1.
  pose proof (Z.rem_bound_abs (Z.rem c d + d) d ltac:(lia)) as H2.
  lia.
Qed.

Lemma neighbor_sums_exact (dim : dims) (x y : Z) :
  0 < width dim -> 0 < height dim -> safe_dims dim ->
  safe_integer x -> safe_integer y ->
  Forall exact_double [x + 1; x - 1; y + 1; y - 1] /\
  Forall (fun c => exact_double (Z.rem c (width dim) + width dim))
         [x + 1; x; x - 1] /\
  Forall (fun c => exact_double (Z.rem c (height dim) + height dim))
         [y + 1; y; y - 1].
Proof.
  unfold safe_dims, safe_integer, MAX_SAFE_INTEGER.
  intros HW HH [HW' HH'] Hx Hy.
  assert (Ex : forall c, exact_double c ->
                 exact_double (Z.rem c (width dim) + width dim))
    by (intros c Hc; by apply wrap_exact).
  assert (Ey : forall c, exact_double c ->
                 exact_double (Z.rem c (height dim) + height dim))
    by (intros c Hc; by apply wrap_exact).
  assert (E1 : exact_double (x + 1)) by (unfold exact_double; lia).
  assert (E2 : exact_double (x - 1)) by (unfold exact_double; lia).
  assert (E3 : exact_double (y + 1)) by (unfold exact_double; lia).
  assert (E4 : exact_double (y - 1)) by (unfold exact_double; lia).
  assert (E5 : exact_double x) by (unfold exact_double; lia).
  assert (E6 : exact_double y) by (unfold exact_double; lia).
  repeat split; repeat apply Forall_cons_2; try apply Forall_nil_2;
    auto.
Qed.

(** C6. On a grid with [W >= 3] and [H >= 3], for safe integers [x] and
    [y] (the range in which the additions of the code are exact, see
    [neighbor_sums_exact]), [getNeighborCells(x, y)] is the list of the
    offsets (+1,0), (+1,+1), (0,+1), (-1,+1), (-1,0), (-1,-1), (0,-1),
    (+1,-1) applied to [(x, y)] and wrapped, in this order: eight pairwise
    distinct normalized coordinates.  On a grid of dead and alive cells the
    live-neighbour count is an integer in [[0, 8]]. *)
Theorem getNeighborCells_moore (dim : dims) (x y : Z) :
  3 <= width dim -> 3 <= height dim -> safe_dims dim ->
  safe_integer x -> safe_integer y ->
  getNeighborCells dim x y =
    [ mkCell ((x + 1) mod width dim) (y mod height dim);
      mkCell ((x + 1) mod width dim) ((y + 1) mod height dim);
      mkCell (x mod width dim) ((y + 1) mod height dim);
      mkCell ((x - 1) mod width dim) ((y + 1) mod height dim);
      mkCell ((x - 1) mod width dim) (y mod height dim);
      mkCell ((x - 1) mod width dim) ((y - 1) mod height dim);
      mkCell (x mod width dim) ((y - 1) mod height dim);
      mkCell ((x + 1) mod width dim) ((y - 1) mod height dim) ] /\
  length (getNeighborCells dim x y) = 8%nat /\
  NoDup (getNeighborCells dim x y) /\
  Forall (in_range dim) (getNeighborCells dim x y) /\
  forall w, wf_grid dim w ->
    exists n, getNeighborCount dim x y w = Done (Some n) w /\ 0 <= n <= 8.
Proof.
  intros HW HH _ _ _.
  match goal with
  | |- ?lhs = ?rhs /\ _ => assert (E : lhs = rhs)
  end.
  { unfold getNeighborCells, getCellObj. by rewrite !wrap_mod by lia. }
  split; [exact E|]. split; [done|]. split; [|split].
  - rewrite E.
    pose proof (mod_apart x (x + 1) (width dim) ltac:(lia)) as X01.
    pose proof (mod_apart (x - 1) x (width dim) ltac:(lia)) as Xm0.
    pose proof (mod_apart (x - 1) (x + 1) (width dim) ltac:(lia)) as Xm1.
    pose proof (mod_apart y (y + 1) (height dim) ltac:(lia)) as Y01.
    pose proof (mod_apart (y - 1) y (height dim) ltac:(lia)) as Ym0.
    pose proof (mod_apart (y - 1) (y + 1) (height dim) ltac:(lia)) as Ym1.
    repeat (apply NoDup_cons; split;
            [rewrite ?not_elem_of_cons; repeat split;
             try apply not_elem_of_nil; intros [=]; congruence|]).
    apply NoDup_nil_2.
  - apply Forall_forall. intros n Hn.
    by apply (getNeighborCells_in_range dim x y); [lia..|].
  - intros w Hwf. apply getNeighborCount_wf; [lia..|done].
Qed.

Lemma getNeighborCells_moore_witness :
  getNeighborCells grid5 0 4 =
    [ mkCell 1 4; mkCell 1 0; mkCell 0 0; mkCell 4 0;
      mkCell 4 4; mkCell 4 3; mkCell 0 3; mkCell 1 3 ] /\
  NoDup (getNeighborCells grid5 0 4) /\
  exists n, getNeighborCount grid5 0 4 blinker_world
            = Done (Some n) blinker_world /\ 0 <= n <= 8.
Proof.
  destruct (getNeighborCells_moore grid5 0 4) as (E & _ & Hnd & _ & Hcnt);
    [try split; vm_compute; discriminate..|].
  split; [exact E|]. split; [exact Hnd|].
  apply Hcnt, wf_gridb_sound. vm_compute; reflexivity.
Defined.

(** ** The rule table *)

(** C7. The default rule table is the classical transition: for a
    neighbour count [n] in [[0, 8]], a dead cell becomes alive exactly when
    [n = 3], and an alive cell stays alive exactly when [n = 2] or
    [n = 3]. *)
Theorem rules_classical (n : Z) (old : value) (w : world) :
  0 <= n <= 8 -> is_state old = true ->
  exists new, nextState rules old (Some n) w = Done new w /\
    is_state new = true /\
    (ToBoolean old = false -> (ToBoolean new = true <-> n = 3)) /\
    (ToBoolean old = true -> (ToBoolean new = true <-> n = 2 \/ n = 3)).
Proof.
  intros Hn Hold.
  assert (Hcases : n = 0 \/ n = 1 \/ n = 2 \/ n = 3 \/ n = 4 \/ n = 5 \/
                   n = 6 \/ n = 7 \/ n = 8) by lia.
  destruct old as [[|[| |]|]|[|]|]; try discriminate Hold;
    repeat (destruct Hcases as [->|Hcases]); try subst n;
    (eexists; split; [reflexivity|]; split; [reflexivity|];
     simpl; split; intros; split; intros; try discriminate; lia).
Qed.

Lemma rules_classical_witness :
  exists new, nextState rules (VBool false) (Some 3) blinker_world
              = Done new blinker_world /\
    is_state new = true /\
    (ToBoolean (VBool false) = false -> (ToBoolean new = true <-> 3 = 3)) /\
    (ToBoolean (VBool false) = true ->
     (ToBoolean new = true <-> 3 = 2 \/ 3 = 3)).
Proof. apply rules_classical; [lia|reflexivity]. Defined.

(** ** De-duplication: [cleanQueue] *)

Lemma same_cell_eq (e c : cell) : same_cell e c = true <-> e = c.
Proof.
  unfold same_cell. rewrite andb_true_iff, !Z.eqb_eq.
  destruct e, c; simpl. split; [by intros [-> ->]|by intros [= -> ->]].
Qed.

Lemma existsb_same_cell (unique : list cell) (c : cell) :
  existsb (fun e => same_cell e c) unique = true <-> c ∈ unique.
Proof.
  rewrite existsb_exists. split.
  - intros (e & He & Heq). apply same_cell_eq in Heq as ->.
    by apply list_elem_of_In.
  - intros Hc. exists c. split; [by apply list_elem_of_In|].
    by apply same_cell_eq.
Qed.

Lemma keep_in (unique : list cell) (c : cell) :
  c ∈ unique -> keep unique c = unique.
Proof.
  intros Hc. unfold keep.
  by destruct (existsb _ unique) eqn:E;
    [|apply existsb_same_cell in Hc; congruence].
Qed.

Lemma keep_fresh (unique : list cell) (c : cell) :
  c ∉ unique -> keep unique c = unique ++ [c].
Proof.
  intros Hc. unfold keep.
  destruct (existsb _ unique) eqn:E; [|done].
  by apply existsb_same_cell in E.
Qed.

Lemma cleanQueue_snoc (qu : list cell) (c : cell) :
  cleanQueue (qu ++ [c]) = keep (cleanQueue qu) c.
Proof. unfold cleanQueue. by rewrite fold_left_app. Qed.

Lemma elem_of_cleanQueue (qu : list cell) (c : cell) :
  c ∈ cleanQueue qu <-> c ∈ qu.
Proof.
  induction qu as [|d qu IH] using rev_ind; [done|].
  rewrite cleanQueue_snoc, elem_of_app, list_elem_of_singleton, <- IH.
  destruct (decide (d ∈ cleanQueue qu)) as [Hd|Hd].
  - rewrite keep_in by done. split; [auto|]. by intros [?| ->].
  - rewrite keep_fresh by done.
    by rewrite elem_of_app, list_elem_of_singleton.
Qed.

Lemma NoDup_cleanQueue (qu : list cell) : NoDup (cleanQueue qu).
Proof.
  induction qu as [|d qu IH] using rev_ind; [constructor|].
  rewrite cleanQueue_snoc.
  destruct (decide (d ∈ cleanQueue qu)) as [Hd|Hd].
  - by rewrite keep_in.
  - rewrite keep_fresh by done. apply NoDup_app. split; [done|].
    split; [|apply NoDup_singleton].
    intros e He ->%list_elem_of_singleton. done.
Qed.

Lemma sublist_cleanQueue (qu : list cell) : cleanQueue qu `sublist_of` qu.
Proof.
  induction qu as [|d qu IH] using rev_ind; [done|].
  rewrite cleanQueue_snoc.
  destruct (decide (d ∈ cleanQueue qu)) as [Hd|Hd].
  - rewrite keep_in by done. by apply sublist_inserts_r.
  - rewrite keep_fresh by done. by apply sublist_app.
Qed.

Lemma cleanQueue_NoDup_id (qu : list cell) : NoDup qu -> cleanQueue qu = qu.
Proof.
  induction qu as [|d qu IH] using rev_ind; [done|].
  intros [Hqu [Hd _]]%NoDup_app. rewrite cleanQueue_snoc, IH by done.
  apply keep_fresh. intros Hin. apply (Hd d Hin).
  by apply list_elem_of_singleton.
Qed.

Lemma cleanQueue_app_prefix (q1 q2 : list cell) :
  cleanQueue q1 `prefix_of` cleanQueue (q1 ++ q2).
Proof.
  induction q2 as [|d q2 IH] using rev_ind; [by rewrite app_nil_r|].
  rewrite app_assoc, cleanQueue_snoc. etrans; [exact IH|].
  unfold keep. destruct (existsb _ _); [done|]. by apply prefix_app_r.
Qed.

Lemma first_seen_snoc (xs : list cell) (c : cell) :
  first_seen (xs ++ [c]) =
  first_seen xs ++ (if decide (c ∈ xs) then [] else [c]).
Proof.
  unfold first_seen. rewrite imap_app, concat_app. f_equal.
  - f_equal. apply imap_ext. intros i x Hi. simpl.
    rewrite take_app_le; [done|]. apply lookup_lt_Some in Hi. lia.
  - simpl. rewrite app_nil_r, Nat.add_0_r, take_app_length. done.
Qed.

Lemma cleanQueue_first_seen (xs : list cell) : cleanQueue xs = first_seen xs.
Proof.
  induction xs as [|c xs IH] using rev_ind; [done|].
  rewrite cleanQueue_snoc, first_seen_snoc, <- IH.
  destruct (decide (c ∈ xs)) as [Hc|Hc].
  - rewrite app_nil_r. apply keep_in. by apply elem_of_cleanQueue.
  - apply keep_fresh. by rewrite elem_of_cleanQueue.
Qed.

Lemma getCellObj_id (dim : dims) (c : cell) :
  in_range dim c -> getCellObj dim (cell_x c) (cell_y c) = c.
Proof.
  intros [Hx Hy]. destruct c as [x y]. simpl in *. unfold getCellObj.
  rewrite !wrap_mod by lia. by rewrite !Z.mod_small by lia.
Qed.

(** C8, as amended.  [cleanQueue(xs)] is the sub-sequence of [xs] that keeps
    the first occurrence of each coordinate, [cleanQueue(cleanQueue(xs))] is
    [cleanQueue(xs)], and [cleanQueue(xs)] holds no two elements whose [x]
    and [y] are both equal as stored: the comparison does not normalize.
    When the elements of [xs] are normalized, as the coordinates that the
    engine enqueues are, no two elements of [cleanQueue(xs)] have the same
    normalized coordinates. *)
Theorem cleanQueue_dedupe (dim : dims) (xs : list cell) :
  cleanQueue xs = first_seen xs /\
  cleanQueue xs `sublist_of` xs /\
  (forall pre c post, xs = pre ++ c :: post -> c ∉ pre ->
     exists k, cleanQueue xs = cleanQueue pre ++ c :: k) /\
  cleanQueue (cleanQueue xs) = cleanQueue xs /\
  NoDup (cleanQueue xs) /\
  (Forall (in_range dim) xs -> norm_distinct dim (cleanQueue xs)).
Proof.
  split; [apply cleanQueue_first_seen|].
  split; [apply sublist_cleanQueue|].
  split.
  { intros pre c post -> Hc.
    replace (pre ++ c :: post) with ((pre ++ [c]) ++ post)
      by (by rewrite <- app_assoc).
    destruct (cleanQueue_app_prefix (pre ++ [c]) post) as [k Hk].
    rewrite Hk, cleanQueue_snoc, keep_fresh by (by rewrite elem_of_cleanQueue).
    exists k. by rewrite <- app_assoc. }
  split; [apply cleanQueue_NoDup_id, NoDup_cleanQueue|].
  split; [apply NoDup_cleanQueue|].
  intros Hin. unfold norm_distinct.
  assert (E : map (fun c => getCellObj dim (cell_x c) (cell_y c))
                (cleanQueue xs) = cleanQueue xs).
  { rewrite <- (map_id (cleanQueue xs)) at 2. apply map_ext_in.
    intros c Hc%list_elem_of_In. apply getCellObj_id.
    rewrite Forall_forall in Hin. apply Hin. by apply elem_of_cleanQueue. }
  rewrite E. apply NoDup_cleanQueue.
Qed.

Lemma cleanQueue_dedupe_witness :
  cleanQueue [mkCell 1 2; mkCell 0 0; mkCell 1 2; mkCell 4 4; mkCell 0 0]
    = [mkCell 1 2; mkCell 0 0; mkCell 4 4] /\
  norm_distinct grid5
    (cleanQueue [mkCell 1 2; mkCell 0 0; mkCell 1 2; mkCell 4 4; mkCell 0 0]).
Proof.
  destruct (cleanQueue_dedupe grid5
              [mkCell 1 2; mkCell 0 0; mkCell 1 2; mkCell 4 4; mkCell 0 0])
    as (E & _ & _ & _ & _ & Hnorm).
  split; [exact E|]. apply Hnorm.
  apply (bool_decide_unpack _). vm_compute. exact I.
Defined.

(** C8, as stated, fails: on a grid of width 5 the coordinates [(0,0)] and
    [(5,0)] are both kept although their normalized coordinates match. *)
Lemma cleanQueue_keeps_unnormalized_duplicates :
  cleanQueue [mkCell 0 0; mkCell 5 0] = [mkCell 0 0; mkCell 5 0] /\
  getCellObj grid5 0 0 = getCellObj grid5 5 0 /\
  ~ norm_distinct grid5 (cleanQueue [mkCell 0 0; mkCell 5 0]).
Proof.
  split; [reflexivity|]. split; [reflexivity|].
  unfold norm_distinct. intros Hnd.
  change (NoDup [mkCell 0 0; mkCell 0 0]) in Hnd.
  apply NoDup_cons in Hnd as [Hnotin _]. apply Hnotin. left.
Qed.

(** ** Construction and configuration errors *)

Lemma new_row_lookup (height y : Z) :
  new_row height !! y =
  if decide (0 <= y < height) then Some (VNum 0) else None.
Proof.
  unfold new_row.
  assert (Hgen : forall (l : list Z) (r0 : gmap Z value),
             foldl (fun r y => <[y := VNum 0]> r) r0 l !! y =
             if decide (y ∈ l) then Some (VNum 0) else r0 !! y).
  { induction l as [|z l IH]; intros r0; cbn [foldl].
    - rewrite decide_False; [done|apply not_elem_of_nil].
    - rewrite IH. destruct (decide (y ∈ l)) as [Hl|Hl].
      + rewrite decide_True; [done|by right].
      + destruct (decide (y = z)) as [->|Hz].
        * rewrite decide_True by left. apply lookup_insert_eq.
        * rewrite decide_False by (by intros [?|?]%elem_of_cons).
          by apply lookup_insert_ne. }
  rewrite Hgen, lookup_empty.
  destruct (decide (0 <= y < height)) as [Hy|Hy].
  - rewrite decide_True; [done|]. apply elem_of_seqZ. lia.
  - rewrite decide_False; [done|]. rewrite elem_of_seqZ. lia.
Qed.

Lemma makeGrid_loop_spec (n : nat) (height : Z) (g : list loc) (w : world) :
  makeGrid_loop n height g w =
  Done (g ++ seq (length (heap w)) n)
       (set_heap (heap w ++ replicate n (new_row height)) w).
Proof.
  revert g w. induction n as [|n IH]; intros g w; simpl.
  - rewrite !app_nil_r. by destruct w.
  - unfold bind, alloc. rewrite IH. simpl.
    rewrite length_app, <- !app_assoc. simpl.
    by replace (length (heap w) + 1)%nat with (S (length (heap w))) by lia.
Qed.

(** [makeGrid] always returns: [max(width, 0)] fresh rows, each holding the
    number [0] at the keys [0 .. height-1] and nothing else. *)
Lemma makeGrid_spec (width height : Z) (w : world) :
  exists g w', makeGrid width height w = Done g w' /\
    length g = Z.to_nat width /\
    grid w' = grid w /\ queue w' = queue w /\
    forall (i : nat) (l : loc), g !! i = Some l ->
      exists r, heap w' !! l = Some r /\
        forall y, r !! y =
                  if decide (0 <= y < height) then Some (VNum 0) else None.
Proof.
  unfold makeGrid. rewrite makeGrid_loop_spec. simpl.
  eexists _, _. split; [reflexivity|]. rewrite length_seq.
  split; [done|]. split; [done|]. split; [done|].
  intros i l Hl. apply lookup_seq in Hl as [-> Hi]. simpl.
  exists (new_row height). split; [|apply new_row_lookup].
  rewrite lookup_app_r by lia.
  replace (length (heap w) + i - length (heap w))%nat with i by lia.
  by apply lookup_replicate_2.
Qed.

Lemma init_wf (dim : dims) :
  exists w, init dim = Done tt w /\ wf_grid dim w /\ queue w = [].
Proof.
  unfold init.
  destruct (makeGrid_spec (width dim) (height dim) empty_world)
    as (g & w' & -> & Hlen & _ & _ & Hrows).
  eexists. split; [reflexivity|]. split; [|done]. split; [done|].
  simpl. intros i l Hl. destruct (Hrows i l Hl) as (r & Hr & Hy).
  exists r. split; [done|]. intros y Hin. exists (VNum 0).
  by rewrite Hy, decide_True.
Qed.

(** C9, as amended.  Construction makes no check and never rejects:
    [makeGrid(width, height)] returns for all integers, with
    [max(width, 0)] rows that hold a dead cell at each of the keys
    [0 .. height-1] and nothing else (no row when [width <= 0], empty rows
    when [height <= 0]); the program starts from that grid with an empty
    queue; and the rule table is a literal with nine states for each of the
    dead and alive cases. *)
Theorem construction_never_rejects (width height : Z) (w : world) :
  (exists g w', makeGrid width height w = Done g w' /\
     length g = Z.to_nat width /\
     forall (i : nat) (l : loc), g !! i = Some l ->
       exists r, heap w' !! l = Some r /\
         forall y, r !! y =
                   if decide (0 <= y < height) then Some (VNum 0) else None) /\
  (exists w', init (mkDims width height) = Done tt w' /\ queue w' = []) /\
  wf_tbl rules.
Proof.
  split; [|split; [|apply wf_tbl_rules]].
  - destruct (makeGrid_spec width height w)
      as (g & w' & E & Hlen & _ & _ & Hrows).
    by exists g, w'.
  - destruct (init_wf (mkDims width height)) as (w' & E & _ & Hq).
    by exists w'.
Qed.

(** C9, as stated, fails: non-positive dimensions are accepted and give a
    grid without cells, and a step runs with a rule table that has fewer
    than nine entries. *)
Lemma construction_accepts_malformed :
  init (mkDims 0 0) = Done tt empty_world /\
  init (mkDims (-3) 7) = Done tt empty_world /\
  init (mkDims 2 0)
    = Done tt {| heap := [∅; ∅]; grid := [0%nat; 1%nat]; queue := [] |} /\
  exists w', updateCells grid5 [[VNum 1]; []] blinker_world = Done tt w'.
Proof.
  split; [reflexivity|]. split; [reflexivity|]. split; [reflexivity|].
  eexists. vm_compute. reflexivity.
Qed.

(** ** The loop of [updateCells] *)

Lemma write_frame (g : list loc) (x y : Z) (s v : value) (w w' : world) :
  write g x y s w = Done v w' -> grid w' = grid w /\ queue w' = queue w.
Proof.
  unfold write. destruct (js_index g x); [|discriminate].
  destruct (heap w !! l); [|discriminate]. by intros [= _ <-].
Qed.

(** What one callback invocation can do to the local [nextQueue]. *)
Lemma updateCell_Done (dim : dims) (tbl : ruletable) (g : list loc)
    (nq nq' : list cell) (c : cell) (w w' : world) :
  updateCell dim tbl g nq c w = Done nq' w' ->
  grid w' = grid w /\ queue w' = queue w /\
  (nq' = nq \/ nq' = nq ++ getNeighborCells dim (cell_x c) (cell_y c)).
Proof.
  unfold updateCell, bind.
  destruct (getCell _ _ _ w) as [old w1|] eqn:E1; [|discriminate].
  apply getCell_pure in E1 as ->.
  destruct (getNeighborCount _ _ _ w) as [cnt w1|] eqn:E2; [|discriminate].
  apply getNeighborCount_pure in E2 as ->.
  destruct (nextState _ _ _ w) as [new w1|] eqn:E3; [|discriminate].
  apply nextState_pure in E3 as ->.
  destruct (negb (loose_eq new old)).
  - unfold setCellInGrid.
    destruct (write _ _ _ _ w) as [v w1|] eqn:E4; [|discriminate].
    apply write_frame in E4 as [? ?]. intros [= <- <-]. auto.
  - intros [= <- <-]. auto.
Qed.


Lemma forEach_update_app (dim : dims) (tbl : ruletable) (g : list loc)
    (q1 q2 : list cell) (nq : list cell) (w : world) :
  forEach_update dim tbl g (q1 ++ q2) nq w =
  bind (forEach_update dim tbl g q1 nq) (forEach_update dim tbl g q2) w.
Proof.
  revert nq w. induction q1 as [|c q1 IH]; intros nq w; simpl; [done|].
  unfold bind in *.
  destruct (updateCell dim tbl g nq c w) as [nq1 w1|]; [|done].
  apply IH.
Qed.

(** The loop only appends neighbour cells to [nextQueue] and leaves the
    global variables [grid] and [queue] alone. *)
Lemma forEach_update_Done (dim : dims) (tbl : ruletable) (g : list loc)
    (qu nq nq' : list cell) (w w' : world) :
  forEach_update dim tbl g qu nq w = Done nq' w' ->
  grid w' = grid w /\ queue w' = queue w /\
  exists k, nq' = nq ++ k /\
    Forall (fun n => exists x y, n ∈ getNeighborCells dim x y) k.
Proof.
  revert nq w. induction qu as [|c qu IH]; intros nq w; simpl.
  - intros [= <- <-]. split; [done|]. split; [done|].
    exists []. by rewrite app_nil_r.
  - unfold bind.
    destruct (updateCell dim tbl g nq c w) as [nq1 w1|] eqn:E; [|discriminate].
    apply updateCell_Done in E as (Hg & Hq & Hnq). intros E'.
    apply IH in E' as (Hg' & Hq' & k & -> & Hk).
    split; [congruence|]. split; [congruence|].
    destruct Hnq as [->| ->]; [by exists k|].
    exists (getNeighborCells dim (cell_x c) (cell_y c) ++ k).
    split; [by rewrite app_assoc|].
    apply Forall_app. split; [|done].
    apply Forall_forall. intros n Hn. by exists (cell_x c), (cell_y c).
Qed.

(** ** The step preserves well-formedness and returns *)

Section Step.

Variable dim : dims.
Variable tbl : ruletable.
Hypothesis HW : 0 < width dim.
Hypothesis HH : 0 < height dim.
Hypothesis Htbl : wf_tbl tbl.

Lemma updateCell_wf (nq : list cell) (c : cell) (w : world) :
  wf_grid dim w -> 0 <= cell_x c < width dim ->
  exists nq' w', updateCell dim tbl (grid w) nq c w = Done nq' w' /\
    wf_grid dim w' /\ grid w' = grid w.
Proof.
  intros Hwf Hx. unfold updateCell, bind.
  destruct (getCell_wf dim HW HH w (cell_x c) (cell_y c) Hwf)
    as (old & -> & _).
  destruct (getNeighborCount_wf dim HW HH w (cell_x c) (cell_y c) Hwf)
    as (n & -> & Hn).
  destruct (nextState_wf tbl w old n Htbl Hn) as (new & -> & Hnew).
  destruct (negb (loose_eq new old)); [|by eexists _, _].
  unfold setCellInGrid.
  destruct (write_wf dim w (cell_x c) (cell_y c) new Hwf Hnew Hx)
    as (w' & -> & Hwf' & Hg & _).
  by eexists _, _.
Qed.

Lemma forEach_update_wf (qu nq : list cell) (w : world) :
  wf_grid dim w -> Forall (fun c => 0 <= cell_x c < width dim) qu ->
  exists nq' w', forEach_update dim tbl (grid w) qu nq w = Done nq' w' /\
    wf_grid dim w' /\ grid w' = grid w.
Proof.
  intros Hwf Hqu. revert nq w Hwf.
  induction Hqu as [|c qu Hc _ IH]; intros nq w Hwf; simpl.
  - by eexists _, _.
  - unfold bind.
    destruct (updateCell_wf nq c w Hwf Hc) as (nq1 & w1 & -> & Hwf1 & Hg1).
    destruct (IH nq1 w1 Hwf1) as (nq2 & w2 & E & Hwf2 & Hg2).
    rewrite Hg1 in E. rewrite E. eexists _, _.
    split; [done|]. split; [done|congruence].
Qed.

(** A step on a well-formed grid whose queued cells have their [x] in the
    grid returns, and leaves a well-formed grid and a normalized queue. *)
Lemma updateCells_wf (w : world) :
  wf_grid dim w -> Forall (fun c => 0 <= cell_x c < width dim) (queue w) ->
  exists w', updateCells dim tbl w = Done tt w' /\
    wf_grid dim w' /\ Forall (in_range dim) (queue w').
Proof.
  intros Hwf Hqu. unfold updateCells, slice.
  destruct (forEach_update_wf (queue w) [] w Hwf Hqu)
    as (nq & w1 & E & [Hlen Hrows] & Hg).
  rewrite E. eexists. split; [done|]. split.
  - split; simpl; [by rewrite <- Hg|].
    intros i l Hl. apply (Hrows i). by rewrite Hg.
  - simpl. apply forEach_update_Done in E as (_ & _ & k & -> & Hk).
    apply Forall_forall. intros n Hn.
    apply (proj1 (elem_of_cleanQueue _ _)) in Hn. simpl in Hn.
    rewrite Forall_forall in Hk. destruct (Hk n Hn) as (x & y & Hxy).
    by eapply getNeighborCells_in_range.
Qed.

Lemma ticks_wf (n : nat) (w : world) :
  wf_grid dim w -> Forall (in_range dim) (queue w) ->
  exists w', ticks dim tbl n w = Done tt w' /\
    wf_grid dim w' /\ Forall (in_range dim) (queue w').
Proof.
  revert w. induction n as [|n IH]; intros w Hwf Hqu; simpl.
  - by exists w.
  - unfold bind.
    destruct (updateCells_wf w Hwf) as (w1 & -> & Hwf1 & Hqu1).
    { eapply Forall_impl; [exact Hqu|]. by intros c [? _]. }
    by apply IH.
Qed.

End Step.

(** ** The step *)



(** C4. A step with an empty input queue returns the program state it was
    given: every row of the grid, hence every cell, is unchanged, and the
    next queue is empty. *)
Theorem updateCells_empty_queue (dim : dims) (tbl : ruletable) (w : world) :
  queue w = [] ->
  updateCells dim tbl w = Done tt w /\
  forall w', updateCells dim tbl w = Done tt w' ->
    queue w' = [] /\
    forall x y, getCell dim x y w' = getCell dim x y w.
Proof.
  intros Hq.
  assert (E : updateCells dim tbl w = Done tt w).
  { unfold updateCells, slice. rewrite Hq. simpl. destruct w; simpl in *.
    by subst. }
  split; [done|]. rewrite E. by intros w' [= <-].
Qed.

Lemma updateCells_empty_queue_witness :
  exists w, clicked grid5 [] = Done tt w /\ queue w = [] /\
    updateCells grid5 rules w = Done tt w /\
    forall w', updateCells grid5 rules w = Done tt w' ->
      queue w' = [] /\
      forall x y, getCell grid5 x y w' = getCell grid5 x y w.
Proof.
  eexists. split; [vm_compute; reflexivity|]. split; [reflexivity|].
  apply updateCells_empty_queue. reflexivity.
Defined.

(** The queue a step returns holds neighbour cells only. *)
Lemma updateCells_in_range (dim : dims) (tbl : ruletable) (w w' : world) :
  0 < width dim -> 0 < height dim ->
  updateCells dim tbl w = Done tt w' -> Forall (in_range dim) (queue w').
Proof.
  intros HW HH. unfold updateCells.
  destruct (forEach_update dim tbl _ (queue w) [] w) as [nq w1|] eqn:E;
    [|discriminate].
  intros [= <-]. simpl.
  apply forEach_update_Done in E as (_ & _ & k & -> & Hk). simpl.
  apply Forall_forall. intros c Hc.
  apply (proj1 (elem_of_cleanQueue _ _)) in Hc.
  rewrite Forall_forall in Hk. destruct (Hk c Hc) as (x & y & Hxy).
  by eapply getNeighborCells_in_range.
Qed.

Lemma ticks_in_range (dim : dims) (tbl : ruletable) (n : nat) (w w' : world) :
  0 < width dim -> 0 < height dim ->
  Forall (in_range dim) (queue w) ->
  ticks dim tbl n w = Done tt w' -> Forall (in_range dim) (queue w').
Proof.
  intros HW HH. revert w. induction n as [|n IH]; intros w Hqu; simpl.
  - by intros [= <-].
  - unfold bind.
    destruct (updateCells dim tbl w) as [[] w1|] eqn:E; [|discriminate].
    apply IH. by eapply updateCells_in_range.
Qed.

(** C10. With positive dimensions, every coordinate in the queue that a
    step returns is normalized: [0 <= x < W] and [0 <= y < H].  Hence a
    queue reached by any number of steps from a normalized (or empty) queue
    is normalized; and from a well-formed grid every such run of steps
    returns. *)
Theorem next_queue_normalized (dim : dims) (tbl : ruletable) (w : world)
    (n : nat) :
  0 < width dim -> 0 < height dim ->
  (forall w', updateCells dim tbl w = Done tt w' ->
     Forall (in_range dim) (queue w')) /\
  (Forall (in_range dim) (queue w) ->
   forall w', ticks dim tbl n w = Done tt w' ->
     Forall (in_range dim) (queue w')) /\
  (wf_tbl tbl -> wf_grid dim w -> Forall (in_range dim) (queue w) ->
   exists w', ticks dim tbl n w = Done tt w' /\
     wf_grid dim w' /\ Forall (in_range dim) (queue w')).
Proof.
  intros HW HH. split; [|split].
  - intros w'. by apply updateCells_in_range.
  - intros Hqu w'. by apply ticks_in_range.
  - intros Htbl Hwf Hqu. by apply ticks_wf.
Qed.

Lemma next_queue_normalized_witness :
  (exists w', updateCells grid5 rules blinker_world = Done tt w' /\
     Forall (in_range grid5) (queue w')) /\
  (exists w', ticks grid5 rules 3 blinker_world = Done tt w' /\
     wf_grid grid5 w' /\ Forall (in_range grid5) (queue w')).
Proof.
  destruct (next_queue_normalized grid5 rules blinker_world 3)
    as (H1 & _ & H3); [vm_compute; reflexivity..|].
  split.
  - eexists. split; [vm_compute; reflexivity|].
    apply H1. vm_compute; reflexivity.
  - apply H3.
    + apply wf_tbl_rules.
    + apply wf_gridb_sound. vm_compute; reflexivity.
    + apply (bool_decide_unpack _). vm_compute. exact I.
Defined.

(** ** What a step does to the cells: updates in place *)

Lemma is_state_b2z (v : value) :
  is_state v = true -> ToNumber v = Some (Z.b2z (ToBoolean v)).
Proof. by destruct v as [[|[| |]|]|[|]|]. Qed.

Lemma loose_eq_states (a b : value) :
  is_state a = true -> is_state b = true ->
  loose_eq a b = true -> ToBoolean a = ToBoolean b.
Proof.
  by destruct a as [[|[| |]|]|[|]|], b as [[|[| |]|]|[|]|].
Qed.

Lemma sum_states_b2z (vs : list value) (a : Z) :
  Forall (fun v => is_state v = true) vs ->
  fold_left js_add vs (Some a) =
  Some (a + foldr (fun v acc => Z.b2z (ToBoolean v) + acc) 0 vs).
Proof.
  intros Hall. revert a. induction Hall as [|v vs Hv _ IH]; intros a; simpl.
  - f_equal. lia.
  - rewrite (is_state_b2z v Hv), IH. f_equal. lia.
Qed.

Section InPlace.

Variable dim : dims.
Variable tbl : ruletable.
Hypothesis HW : 0 < width dim.
Hypothesis HH : 0 < height dim.
Hypothesis Htbl : wf_tbl tbl.

Lemma getCell_alive (w : world) (c : cell) :
  wf_grid dim w ->
  exists v, getCell dim (cell_x c) (cell_y c) w = Done v w /\
    is_state v = true /\ alive_at dim w c = ToBoolean v.
Proof.
  intros Hwf.
  destruct (getCell_wf dim HW HH w (cell_x c) (cell_y c) Hwf) as (v & E & Hv).
  exists v. unfold alive_at. by rewrite E.
Qed.

Lemma mapM_getCell_alive (w : world) (l : list cell) :
  wf_grid dim w ->
  exists vs, mapM (fun c => getCell dim (cell_x c) (cell_y c)) l w = Done vs w
    /\ Forall (fun v => is_state v = true) vs
    /\ foldr (fun v acc => Z.b2z (ToBoolean v) + acc) 0 vs =
       foldr (fun n acc => Z.b2z (alive_at dim w n) + acc) 0 l.
Proof.
  intros Hwf. induction l as [|c l (vs & E & Hall & Hsum)]; simpl.
  - by exists [].
  - destruct (getCell_alive w c Hwf) as (v & Ev & Hv & Ha).
    exists (v :: vs). unfold bind. rewrite Ev, E. simpl.
    split; [done|]. split; [by constructor|]. by rewrite Ha, Hsum.
Qed.

Lemma live_count_range (w : world) (c : cell) : 0 <= live_count dim w c <= 8.
Proof.
  unfold live_count.
  assert (Hgen : forall l : list cell,
             0 <= foldr (fun n acc => Z.b2z (alive_at dim w n) + acc) 0 l
               <= Z.of_nat (length l)).
  { induction l as [|n l IH]; simpl; [lia|].
    destruct (alive_at dim w n); simpl; lia. }
  apply (Hgen (getNeighborCells dim (cell_x c) (cell_y c))).
Qed.

(** [getNeighborCount] is the number of alive neighbours in the grid as it
    is when the call is made. *)
Lemma getNeighborCount_live (w : world) (c : cell) :
  wf_grid dim w ->
  getNeighborCount dim (cell_x c) (cell_y c) w
  = Done (Some (live_count dim w c)) w.
Proof.
  intros Hwf. unfold getNeighborCount, getNeighborStates, bind.
  destruct (mapM_getCell_alive w
              (getNeighborCells dim (cell_x c) (cell_y c)) Hwf)
    as (vs & -> & Hall & Hsum).
  rewrite (sum_states_b2z vs 0 Hall), Hsum. done.
Qed.

Lemma nextState_bit (w : world) (old : value) (n : Z) :
  0 <= n <= 8 ->
  exists new, nextState tbl old (Some n) w = Done new w /\
    is_state new = true /\ ToBoolean new = rule_bit tbl (ToBoolean old) n.
Proof.
  intros Hn. destruct Htbl as [Hlen Hall]. unfold nextState, rule_bit.
  destruct (js_index_in tbl (if ToBoolean old then 1 else 0)) as [r Hr].
  { rewrite Hlen. destruct (ToBoolean old); lia. }
  rewrite Hr. apply js_index_Some in Hr as [_ Hr].
  apply list_elem_of_lookup_2 in Hr.
  rewrite Forall_forall in Hall. destruct (Hall _ Hr) as [Hr9 Hst].
  destruct (js_index_in r n) as [v Hv]; [lia|]. rewrite Hv.
  exists v. split; [done|]. split; [|done].
  apply js_index_Some in Hv as [_ Hv]. apply list_elem_of_lookup_2 in Hv.
  rewrite Forall_forall in Hst. by apply Hst.
Qed.

(** Writing a state at a normalized coordinate of a grid whose rows are
    distinct objects changes that cell and no other. *)
Lemma write_alive (w : world) (c : cell) (s : value) :
  wf_grid dim w -> NoDup (grid w) -> in_range dim c -> is_state s = true ->
  exists w', write (grid w) (cell_x c) (cell_y c) s w = Done s w' /\
    wf_grid dim w' /\ grid w' = grid w /\
    forall c', in_range dim c' ->
      alive_at dim w' c' =
      if decide (c' = c) then ToBoolean s else alive_at dim w c'.
Proof.
  intros Hwf Hnd [Hx Hy] Hs.
  destruct (write_wf dim w (cell_x c) (cell_y c) s Hwf Hs Hx)
    as (w' & E & Hwf' & Hg & _).
  exists w'. split; [done|]. split; [done|]. split; [done|].
  intros c' [Hx' Hy']. unfold alive_at, getCell. rewrite Hg.
  rewrite !wrap_mod, !Z.mod_small by lia.
  destruct Hwf as [Hlen Hrows].
  destruct (js_index_in (grid w) (cell_x c)) as [l Hl]; [lia|].
  destruct (js_index_in (grid w) (cell_x c')) as [l' Hl']; [lia|].
  unfold write in E. rewrite Hl in E. unfold read. rewrite Hl'.
  apply js_index_Some in Hl as [_ Hl]. apply js_index_Some in Hl' as [_ Hl'].
  destruct (Hrows _ _ Hl) as (r & Hr & _).
  destruct (Hrows _ _ Hl') as (r' & Hr' & _).
  rewrite Hr in E. injection E as <-. simpl. unfold loc in *. rewrite Hr'.
  destruct (decide (l = l')) as [<-|Hne].
  - assert (Hxx : cell_x c' = cell_x c).
    { pose proof (NoDup_lookup _ _ _ _ Hnd Hl Hl'). lia. }
    rewrite list_lookup_insert_eq by (by eapply lookup_lt_Some).
    assert (r' = r) as -> by congruence.
    destruct (decide (cell_y c = cell_y c')) as [Hyy|Hyy].
    + rewrite Hyy, lookup_insert_eq. simpl.
      rewrite decide_True; [done|]. destruct c, c'; simpl in *. congruence.
    + rewrite lookup_insert_ne by done.
      rewrite decide_False; [done|]. intros ->. done.
  - rewrite list_lookup_insert_ne by done. rewrite Hr'.
    rewrite decide_False; [done|]. intros ->. congruence.
Qed.

(** The callback on a normalized cell [c]: the cell takes the state the rule
    table gives for its state and live-neighbour count in the grid as it is
    now, and every other cell keeps its state. *)
Lemma updateCell_alive (nq : list cell) (c : cell) (w : world) :
  wf_grid dim w -> NoDup (grid w) -> in_range dim c ->
  exists nq' w', updateCell dim tbl (grid w) nq c w = Done nq' w' /\
    wf_grid dim w' /\ grid w' = grid w /\
    forall c', in_range dim c' ->
      alive_at dim w' c' =
      if decide (c' = c)
      then rule_bit tbl (alive_at dim w c) (live_count dim w c)
      else alive_at dim w c'.
Proof.
  intros Hwf Hnd Hc. unfold updateCell, bind.
  destruct (getCell_alive w c Hwf) as (old & -> & Hold & Ha).
  rewrite (getNeighborCount_live w c Hwf).
  destruct (nextState_bit w old (live_count dim w c) (live_count_range w c))
    as (new & -> & Hnew & Hbit).
  rewrite Ha, <- Hbit.
  destruct (loose_eq new old) eqn:Heq; simpl.
  - exists nq, w. split; [done|]. split; [done|]. split; [done|].
    intros c' _. case_decide as Hcc; [|done]. subst c'.
    rewrite Ha. symmetry. by apply loose_eq_states.
  - unfold setCellInGrid.
    destruct (write_alive w c new Hwf Hnd Hc Hnew)
      as (w' & -> & Hwf' & Hg & Hal).
    by eexists _, _.
Qed.

(** The loop over normalized cells leaves the cells that are not queued as
    they are. *)
Lemma forEach_update_alive (qu nq : list cell) (w : world) :
  wf_grid dim w -> NoDup (grid w) -> Forall (in_range dim) qu ->
  exists nq' w', forEach_update dim tbl (grid w) qu nq w = Done nq' w' /\
    wf_grid dim w' /\ grid w' = grid w /\
    forall c', in_range dim c' -> c' ∉ qu ->
      alive_at dim w' c' = alive_at dim w c'.
Proof.
  intros Hwf Hnd Hqu. revert nq w Hwf Hnd.
  induction Hqu as [|c qu Hc _ IH]; intros nq w Hwf Hnd; simpl.
  - by exists nq, w.
  - unfold bind.
    destruct (updateCell_alive nq c w Hwf Hnd Hc)
      as (nq1 & w1 & -> & Hwf1 & Hg1 & Hal1).
    destruct (IH nq1 w1 Hwf1) as (nq2 & w2 & E & Hwf2 & Hg2 & Hal2).
    { by rewrite Hg1. }
    rewrite Hg1 in E. rewrite E. exists nq2, w2.
    split; [done|]. split; [done|]. split; [congruence|].
    intros c' Hc' [Hne Hnotin]%not_elem_of_cons.
    rewrite Hal2, Hal1 by done. by rewrite decide_False.
Qed.

(** The state of the grid when the loop reaches a queued cell.  For a queue
    [pre ++ c :: post] of distinct normalized cells, [w1] is the state after
    the cells of [pre]: a cell of [pre] already has the state it has after
    the step, every other cell still has the state it had before the step,
    and [c] takes the state the rule table gives for its live-neighbour
    count in [w1]. *)
Lemma forEach_update_at (pre post nq : list cell) (c : cell) (w : world) :
  wf_grid dim w -> NoDup (grid w) ->
  Forall (in_range dim) (pre ++ c :: post) -> NoDup (pre ++ c :: post) ->
  exists nq1 w1 nq' w',
    forEach_update dim tbl (grid w) pre nq w = Done nq1 w1 /\
    forEach_update dim tbl (grid w) (pre ++ c :: post) nq w = Done nq' w' /\
    grid w' = grid w /\
    (forall X, in_range dim X -> X ∉ pre ->
       alive_at dim w1 X = alive_at dim w X) /\
    (forall X, in_range dim X -> X ∈ pre ->
       alive_at dim w1 X = alive_at dim w' X) /\
    alive_at dim w' c = rule_bit tbl (alive_at dim w c) (live_count dim w1 c).
Proof.
  intros Hwf Hnd [Hpre [Hc Hpost]%Forall_cons]%Forall_app
         (Hndpre & Hdisj & [Hcpost Hndpost]%NoDup_cons)%NoDup_app.
  destruct (forEach_update_alive pre nq w Hwf Hnd Hpre)
    as (nq1 & w1 & E1 & Hwf1 & Hg1 & Hal1).
  assert (Hnd1 : NoDup (grid w1)) by (by rewrite Hg1).
  destruct (updateCell_alive nq1 c w1 Hwf1 Hnd1 Hc)
    as (nq2 & w2 & E2 & Hwf2 & Hg2 & Hal2).
  assert (Hnd2 : NoDup (grid w2)) by (by rewrite Hg2).
  destruct (forEach_update_alive post nq2 w2 Hwf2 Hnd2 Hpost)
    as (nq3 & w3 & E3 & Hwf3 & Hg3 & Hal3).
  rewrite Hg1 in E2. rewrite Hg2, Hg1 in E3.
  exists nq1, w1, nq3, w3. split; [done|]. split.
  { rewrite forEach_update_app. unfold bind at 1. rewrite E1. simpl.
    unfold bind. by rewrite E2. }
  split; [congruence|]. split; [done|].
  assert (Hcpre : c ∉ pre).
  { intros Hin. apply (Hdisj c Hin). left. }
  split.
  - intros X HX Hin.
    assert (X <> c) by (by intros ->).
    assert (X ∉ post).
    { intros Hin'. apply (Hdisj X Hin). by right. }
    rewrite Hal3, Hal2 by done. by rewrite decide_False.
  - rewrite Hal3, Hal2 by done. rewrite decide_True by done.
    by rewrite (Hal1 c Hc Hcpre).
Qed.

End InPlace.

(** ** The step reads the grid it is writing *)

(** C1 fails on the code.  [grid.slice()] copies the outer array only, so
    [nextGrid] and [grid] share their rows and [setCellInGrid(nextGrid, ...)]
    is visible to the [getCell] of the following callbacks.  On the page's
    50x50 grid with the default rules, clicking (1,2), (2,2), (3,2) or
    clicking (2,2), (1,2), (3,2) gives the same grid with the same three
    alive cells, and two queues that are permutations of each other.  At the
    start of the step the cell (2,2) has two live neighbours; when the loop
    reaches it after (1,2) it counts one.  One step leaves no alive cell for
    the first queue and the alive cell (2,2) for the second. *)
Theorem updateCells_order_dependent :
  observe dimensions (clicked dimensions clicks_a)
    = Some ([(1, 2); (2, 2); (3, 2)], clicks_a) /\
  observe dimensions (clicked dimensions clicks_b)
    = Some ([(1, 2); (2, 2); (3, 2)], clicks_b) /\
  heap world_a = heap world_b /\ grid world_a = grid world_b /\
  queue world_a ≡ₚ queue world_b /\
  value_of (getNeighborCount dimensions 2 2 world_a) = Some (Some 2) /\
  value_of
    (bind (forEach_update dimensions rules (slice (grid world_a))
             [mkCell 1 2] [])
          (fun _ => getNeighborCount dimensions 2 2) world_a)
    = Some (Some 1) /\
  option_map fst (observe dimensions (updateCells dimensions rules world_a))
    = Some [] /\
  option_map fst (observe dimensions (updateCells dimensions rules world_b))
    = Some [(2, 2)].
Proof.
  split; [vm_compute; reflexivity|]. split; [vm_compute; reflexivity|].
  split; [apply (bool_decide_unpack _); vm_compute; exact I|].
  split; [apply (bool_decide_unpack _); vm_compute; exact I|].
  split; [vm_compute; apply perm_swap|].
  repeat split; vm_compute; reflexivity.
Qed.

(** ** The blinker scenario, for every order of the queue *)

Lemma alive_at_ext (dim : dims) (w w' : world) (c : cell) :
  heap w = heap w' -> grid w = grid w' ->
  alive_at dim w c = alive_at dim w' c.
Proof.
  intros Hh Hg. unfold alive_at, getCell, read. rewrite Hh, Hg.
  destruct (js_index (grid w') _); [|done]. by destruct (heap w' !! _).
Qed.

Lemma alive_cells_spec (dim : dims) (w : world) (c : cell) :
  (cell_x c, cell_y c) ∈ alive_cells dim w <->
  in_range dim c /\ alive_at dim w c = true.
Proof.
  destruct c as [x y]. unfold alive_cells, in_range. simpl.
  rewrite list_elem_of_In, in_flat_map. split.
  - intros (x' & Hx' & Hin). apply in_flat_map in Hin as (y' & Hy' & Hin).
    apply list_elem_of_In, elem_of_seqZ in Hx'.
    apply list_elem_of_In, elem_of_seqZ in Hy'.
    destruct (alive_at dim w (mkCell x' y')) eqn:E; [|by destruct Hin].
    destruct Hin as [[= <- <-]|[]]. split; [lia|done].
  - intros [[Hx Hy] Ha]. exists x. split.
    { apply list_elem_of_In, elem_of_seqZ. lia. }
    apply in_flat_map. exists y. split.
    { apply list_elem_of_In, elem_of_seqZ. lia. }
    rewrite Ha. by left.
Qed.

Lemma enqueue_all (qu : list cell) (w : world) :
  fold_left (fun o c => andThen o (addCellToQueue (cell_x c) (cell_y c))) qu
    (Done tt w)
  = Done tt {| heap := heap w; grid := grid w; queue := queue w ++ qu |}.
Proof.
  revert w. induction qu as [|c qu IH]; intros w; simpl.
  - rewrite app_nil_r. by destruct w.
  - unfold addCellToQueue at 2. rewrite IH. simpl.
    rewrite <- app_assoc. by destruct c.
Qed.

Section Blinker.

Variable qu : list cell.
Hypothesis Hperm : qu ≡ₚ tri_queue.

Lemma seeded_blinker : seeded grid5 tri_cell qu = Done tt (blinker_start qu).
Proof.
  unfold seeded.
  assert (E : fold_left
                (fun o c =>
                   andThen o
                     (let* _ := toggleCell (cell_x c) (cell_y c) in ret tt))
                tri_cell (init grid5)
              = Done tt {| heap := heap blinker_world;
                           grid := grid blinker_world; queue := [] |}).
  { vm_compute. reflexivity. }
  rewrite E, enqueue_all. done.
Qed.

Lemma blinker_wf :
  wf_grid grid5 (blinker_start qu) /\ NoDup (grid (blinker_start qu)).
Proof.
  split.
  - apply wf_gridb_sound. vm_compute. reflexivity.
  - apply (bool_decide_unpack _). vm_compute. exact I.
Qed.

Lemma blinker_queue : Forall (in_range grid5) qu /\ NoDup qu.
Proof.
  split.
  - rewrite Hperm. apply (bool_decide_unpack _). vm_compute. exact I.
  - rewrite Hperm. apply NoDup_cleanQueue.
Qed.

(** The state of a cell before the step. *)
Lemma blinker_before (c : cell) :
  alive_at grid5 (blinker_start qu) c = alive_at grid5 blinker_world c.
Proof. by apply alive_at_ext. Qed.

(** The state of a cell when the loop has processed the cells of [pre]: a
    cell that is dead (alive) both before and after the step is dead
    (alive). *)
Lemma blinker_stable (pre : list cell) (w1 wF : world) (X : cell) (b : bool) :
  (forall X, in_range grid5 X -> X ∉ pre ->
     alive_at grid5 w1 X = alive_at grid5 (blinker_start qu) X) ->
  (forall X, in_range grid5 X -> X ∈ pre ->
     alive_at grid5 w1 X = alive_at grid5 wF X) ->
  in_range grid5 X ->
  alive_at grid5 blinker_world X = b -> alive_at grid5 wF X = b ->
  alive_at grid5 w1 X = b.
Proof.
  intros Hout Hin HX Hb Ha. destruct (decide (X ∈ pre)) as [e|n].
  - rewrite (Hin X HX e). exact Ha.
  - rewrite (Hout X HX n), blinker_before. exact Hb.
Qed.

(** Rewrites the state of the cell [(x, y)], dead or alive both before and
    after the step, in the state the loop has reached. *)
Ltac stable_cell Hst HFv x y b :=
  rewrite (Hst (mkCell x y) b eq_refl eq_refl (HFv x y b eq_refl eq_refl)).

(** No order of the queue gives the vertical tri-cell.  The cell (1,2) dies
    only with fewer than two live neighbours, so it is processed before
    (2,1) is born; but (2,1) is born only with three live neighbours, and
    after (1,2) has died it has at most two. *)
Lemma blinker_never_vertical_aux :
  exists alive nq,
    blinker_step qu = Some (alive, nq) /\
    alive <> [(2, 1); (2, 2); (2, 3)].
Proof.
  destruct blinker_wf as [Hwf Hnd]. destruct blinker_queue as [Hin Hndq].
  unfold blinker_step. rewrite seeded_blinker. cbn [andThen].
  unfold updateCells, slice.
  destruct (forEach_update_alive grid5 rules eq_refl eq_refl
              wf_tbl_rules qu [] (blinker_start qu) Hwf Hnd Hin)
    as (nqF & wF & EF & _ & HgF & _).
  change (queue (blinker_start qu)) with qu. rewrite EF. unfold observe.
  eexists _, _. split; [reflexivity|]. intros Hfinal.
  pose (final := {| heap := heap wF; grid := grid (blinker_start qu);
                    queue := cleanQueue nqF |}).
  change (alive_cells grid5 final = [(2, 1); (2, 2); (2, 3)]) in Hfinal.
  (* the state of each cell after the step *)
  assert (HF : forall c, in_range grid5 c ->
             alive_at grid5 wF c =
             bool_decide ((cell_x c, cell_y c) ∈ [(2, 1); (2, 2); (2, 3)])).
  { intros c Hc.
    rewrite (alive_at_ext grid5 wF final c eq_refl HgF).
    rewrite <- Hfinal. destruct (alive_at grid5 final c) eqn:E.
    - symmetry. apply bool_decide_eq_true. apply alive_cells_spec.
      split; assumption.
    - symmetry. apply bool_decide_eq_false. intros Hc'.
      apply alive_cells_spec in Hc' as [_ Hc']. rewrite E in Hc'.
      discriminate Hc'. }
  assert (HFv : forall x y b,
             bool_decide (in_range grid5 (mkCell x y)) = true ->
             bool_decide ((x, y) ∈ [(2, 1); (2, 2); (2, 3)]) = b ->
             alive_at grid5 wF (mkCell x y) = b).
  { intros x y b Hr%bool_decide_eq_true <-. apply (HF (mkCell x y) Hr). }
  assert (Hr : forall x y,
             bool_decide (in_range grid5 (mkCell x y)) = true ->
             in_range grid5 (mkCell x y)).
  { intros x y Hr%bool_decide_eq_true. exact Hr. }
  (* when the loop reaches (1,2) *)
  assert (H12 : mkCell 1 2 ∈ qu).
  { rewrite Hperm. apply (bool_decide_unpack _). vm_compute. exact I. }
  apply list_elem_of_split in H12 as (pre & post & Hsplit).
  destruct (forEach_update_at grid5 rules eq_refl eq_refl
              wf_tbl_rules pre post [] (mkCell 1 2) (blinker_start qu)
              Hwf Hnd)
    as (nq1 & w1 & nq' & w' & _ & E' & _ & Hout & Hin1 & Hc);
    [rewrite <- Hsplit; assumption..|].
  rewrite <- Hsplit, EF in E'. injection E' as <- <-.
  pose proof (blinker_stable pre w1 wF) as Hst.
  specialize (fun X b HX => Hst X b Hout Hin1 (Hr (cell_x X) (cell_y X) HX)).
  assert (H21 : mkCell 2 1 ∉ pre).
  { intros Hpre. revert Hc.
    rewrite (HFv 1 2 false eq_refl eq_refl), blinker_before.
    unfold live_count.
    change (getNeighborCells grid5 (cell_x (mkCell 1 2))
              (cell_y (mkCell 1 2)))
      with [mkCell 2 2; mkCell 2 3; mkCell 1 3; mkCell 0 3;
            mkCell 0 2; mkCell 0 1; mkCell 1 1; mkCell 2 1].
    cbn [foldr].
    rewrite (Hin1 (mkCell 2 1) (Hr 2 1 eq_refl) Hpre).
    rewrite (HFv 2 1 true eq_refl eq_refl).
    stable_cell Hst HFv 2 2 true.
    stable_cell Hst HFv 1 3 false.
    stable_cell Hst HFv 0 3 false.
    stable_cell Hst HFv 0 2 false.
    stable_cell Hst HFv 0 1 false.
    stable_cell Hst HFv 1 1 false.
    change (alive_at grid5 blinker_world (mkCell 1 2)) with true.
    destruct (alive_at grid5 w1 (mkCell 2 3)); intros Hc; discriminate Hc. }
  (* (2,1) is processed after (1,2) *)
  assert (H21q : mkCell 2 1 ∈ post).
  { assert (Hq : mkCell 2 1 ∈ qu).
    { rewrite Hperm. apply (bool_decide_unpack _). vm_compute. exact I. }
    rewrite Hsplit in Hq.
    apply elem_of_app in Hq as [Hq|Hq]; [contradiction|].
    apply elem_of_cons in Hq as [Hq|Hq]; [discriminate Hq|exact Hq]. }
  apply list_elem_of_split in H21q as (pa & pb & Hpost).
  assert (Hsplit' : qu = (pre ++ mkCell 1 2 :: pa) ++ mkCell 2 1 :: pb).
  { rewrite Hsplit, Hpost, <- app_assoc. reflexivity. }
  destruct (forEach_update_at grid5 rules eq_refl eq_refl
              wf_tbl_rules (pre ++ mkCell 1 2 :: pa) pb [] (mkCell 2 1)
              (blinker_start qu) Hwf Hnd)
    as (nq2 & w2 & nq'' & w'' & _ & E'' & _ & Hout2 & Hin2 & Hc2);
    [rewrite <- Hsplit'; assumption..|].
  rewrite <- Hsplit', EF in E''. injection E'' as <- <-.
  pose proof (blinker_stable (pre ++ mkCell 1 2 :: pa) w2 wF) as Hst2.
  specialize
    (fun X b HX => Hst2 X b Hout2 Hin2 (Hr (cell_x X) (cell_y X) HX)).
  revert Hc2.
  rewrite (HFv 2 1 true eq_refl eq_refl), blinker_before.
  unfold live_count.
  change (getNeighborCells grid5 (cell_x (mkCell 2 1)) (cell_y (mkCell 2 1)))
    with [mkCell 3 1; mkCell 3 2; mkCell 2 2; mkCell 1 2;
          mkCell 1 1; mkCell 1 0; mkCell 2 0; mkCell 3 0].
  cbn [foldr].
  assert (H12' : mkCell 1 2 ∈ pre ++ mkCell 1 2 :: pa).
  { apply elem_of_app. right. left. }
  rewrite (Hin2 (mkCell 1 2) (Hr 1 2 eq_refl) H12').
  rewrite (HFv 1 2 false eq_refl eq_refl).
  stable_cell Hst2 HFv 3 1 false.
  stable_cell Hst2 HFv 2 2 true.
  stable_cell Hst2 HFv 1 1 false.
  stable_cell Hst2 HFv 1 0 false.
  stable_cell Hst2 HFv 2 0 false.
  stable_cell Hst2 HFv 3 0 false.
  change (alive_at grid5 blinker_world (mkCell 2 1)) with false.
  destruct (alive_at grid5 w2 (mkCell 3 2)); intros Hc2; discriminate Hc2.
Qed.

End Blinker.

(** C2 fails on the code, by the sharing of rows shown for C1.  On the 5x5
    grid with the horizontal tri-cell alive and the default rules, one step
    with the queue of the tri-cell followed by its neighbours leaves no
    alive cell, and one step with that queue reversed leaves five alive
    cells.  In whatever order the fifteen cells are queued, the step
    returns and the alive set it leaves is not the vertical tri-cell
    {(2,1), (2,2), (2,3)}. *)
Theorem blinker_step_not_vertical :
  option_map fst (observe grid5 (seeded grid5 tri_cell tri_queue))
    = Some [(1, 2); (2, 2); (3, 2)] /\
  tri_queue =
    [ mkCell 1 2; mkCell 2 2; mkCell 3 2; mkCell 2 3; mkCell 1 3;
      mkCell 0 3; mkCell 0 2; mkCell 0 1; mkCell 1 1; mkCell 2 1;
      mkCell 3 3; mkCell 3 1; mkCell 4 2; mkCell 4 3; mkCell 4 1 ] /\
  option_map fst (blinker_step tri_queue) = Some [] /\
  option_map fst (blinker_step (rev tri_queue))
    = Some [(1, 1); (1, 2); (2, 1); (2, 3); (3, 2)] /\
  forall qu, qu ≡ₚ tri_queue ->
    exists alive nq,
      blinker_step qu = Some (alive, nq) /\
      alive <> [(2, 1); (2, 2); (2, 3)].
Proof.
  split; [vm_compute; reflexivity|]. split; [vm_compute; reflexivity|].
  split; [vm_compute; reflexivity|]. split; [vm_compute; reflexivity|].
  exact blinker_never_vertical_aux.
Qed.

Lemma blinker_step_not_vertical_witness :
  exists alive nq,
    blinker_step (rev tri_queue) = Some (alive, nq) /\
    alive <> [(2, 1); (2, 2); (2, 3)].
Proof.
  destruct blinker_step_not_vertical as (_ & _ & _ & _ & Hall).
  apply Hall. symmetry. apply Permutation_rev.
Defined.

(** * Further properties of the code *)

(** ** The step: completion, exceptions, fixed points, queue size *)

Lemma updateCells_Done_inv (dim : dims) (tbl : ruletable) (w w' : world) :
  updateCells dim tbl w = Done tt w' ->
  exists nq w1,
    forEach_update dim tbl (grid w) (queue w) [] w = Done nq w1 /\
    w' = {| heap := heap w1; grid := grid w; queue := cleanQueue nq |}.
Proof.
  unfold updateCells, slice.
  destruct (forEach_update dim tbl _ (queue w) [] w) as [nq w1|];
    [|discriminate].
  intros [= <-]. by exists nq, w1.
Qed.

(** X1. On a grid of [W] rows of [H] dead or alive cells, with a rule table
    of two rows of nine states, a step whose queued cells all have their [x]
    inside [[0, W)] completes without an exception; it keeps the outer array,
    leaves every cell dead or alive, and returns a queue of normalized
    coordinates without duplicates. *)
Theorem step_completes_on_wellformed (dim : dims) (tbl : ruletable)
    (w : world) :
  0 < width dim -> 0 < height dim -> wf_tbl tbl -> wf_grid dim w ->
  Forall (fun c => 0 <= cell_x c < width dim) (queue w) ->
  exists w', updateCells dim tbl w = Done tt w' /\
    grid w' = grid w /\ wf_grid dim w' /\
    Forall (in_range dim) (queue w') /\ NoDup (queue w').
Proof.
  intros HW HH Htbl Hwf Hqu.
  destruct (updateCells_wf dim tbl HW HH Htbl w Hwf Hqu)
    as (w' & E & Hwf' & Hin).
  exists w'. split; [exact E|].
  apply updateCells_Done_inv in E as (nq & w1 & _ & ->). simpl.
  split; [reflexivity|]. split; [exact Hwf'|]. split; [exact Hin|].
  apply NoDup_cleanQueue.
Qed.

Lemma step_completes_on_wellformed_witness :
  exists w', updateCells grid5 rules blinker_world = Done tt w' /\
    grid w' = grid blinker_world /\ wf_grid grid5 w' /\
    Forall (in_range grid5) (queue w') /\ NoDup (queue w').
Proof.
  apply step_completes_on_wellformed.
  - reflexivity.
  - reflexivity.
  - apply wf_tbl_rules.
  - apply wf_gridb_sound. vm_compute. reflexivity.
  - apply (bool_decide_unpack _). vm_compute. exact I.
Defined.

(** X2. [setCellInGrid] indexes the outer array with the queued [x] as it
    is, without wrapping.  When the loop reaches a queued cell whose [x] is
    outside the outer array and whose computed state differs from its old
    state, the step throws a [TypeError]: the variables [grid] and [queue]
    keep their values, and the writes of the cells processed before stay. *)
Theorem step_throws_outside_grid (dim : dims) (tbl : ruletable)
    (w w1 : world) (pre post nq1 : list cell) (c : cell)
    (old new : value) (cnt : number) :
  0 < width dim -> 0 < height dim ->
  queue w = pre ++ c :: post ->
  forEach_update dim tbl (slice (grid w)) pre [] w = Done nq1 w1 ->
  getCell dim (cell_x c) (cell_y c) w1 = Done old w1 ->
  getNeighborCount dim (cell_x c) (cell_y c) w1 = Done cnt w1 ->
  nextState tbl old cnt w1 = Done new w1 ->
  loose_eq new old = false ->
  ~ (0 <= cell_x c < Z.of_nat (length (grid w))) ->
  updateCells dim tbl w = TypeError w1 /\
  grid w1 = grid w /\ queue w1 = queue w.
Proof.
  intros _ _ Hq Hpre Hold Hcnt Hnew Hne Hx.
  pose proof (forEach_update_Done _ _ _ _ _ _ _ _ Hpre) as (Hg & Hqu & _).
  split; [|by split].
  unfold updateCells. rewrite Hq, forEach_update_app.
  unfold bind at 1. rewrite Hpre. simpl. unfold bind at 1.
  unfold updateCell, bind. rewrite Hold, Hcnt, Hnew, Hne. simpl.
  unfold setCellInGrid, write, slice, js_index.
  case_decide as H0; [|done].
  rewrite lookup_ge_None_2; [done|]. lia.
Qed.

Lemma step_throws_outside_grid_witness :
  updateCells grid5 rules (blinker_start [mkCell 6 2])
    = TypeError (blinker_start [mkCell 6 2]) /\
  grid (blinker_start [mkCell 6 2]) = grid (blinker_start [mkCell 6 2]) /\
  queue (blinker_start [mkCell 6 2]) = queue (blinker_start [mkCell 6 2]).
Proof.
  apply (step_throws_outside_grid grid5 rules (blinker_start [mkCell 6 2])
           (blinker_start [mkCell 6 2]) [] [] [] (mkCell 6 2)
           (VBool true) (VNum 0) (Some 1));
    try (vm_compute; reflexivity).
  vm_compute. intros [_ H]. discriminate H.
Defined.

Lemma changes_pure (dim : dims) (tbl : ruletable) (c : cell) (w w' : world)
    (b : bool) :
  changes dim tbl c w = Done b w' -> w' = w.
Proof.
  unfold changes, bind.
  destruct (getCell _ _ _ w) as [old w1|] eqn:E1; [|discriminate].
  apply getCell_pure in E1 as ->.
  destruct (getNeighborCount _ _ _ w) as [cnt w1|] eqn:E2; [|discriminate].
  apply getNeighborCount_pure in E2 as ->.
  destruct (nextState _ _ _ w) as [new w1|] eqn:E3; [|discriminate].
  apply nextState_pure in E3 as ->. by intros [= _ <-].
Qed.

(** A callback that finds no change writes nothing and pushes nothing. *)
Lemma updateCell_unchanged (dim : dims) (tbl : ruletable) (g : list loc)
    (nq : list cell) (c : cell) (w : world) :
  value_of (changes dim tbl c w) = Some false ->
  updateCell dim tbl g nq c w = Done nq w.
Proof.
  unfold changes, updateCell, bind.
  destruct (getCell _ _ _ w) as [old w1|] eqn:E1; [|discriminate].
  apply getCell_pure in E1 as ->.
  destruct (getNeighborCount _ _ _ w) as [cnt w1|] eqn:E2; [|discriminate].
  apply getNeighborCount_pure in E2 as ->.
  destruct (nextState _ _ _ w) as [new w1|] eqn:E3; [|discriminate].
  apply nextState_pure in E3 as ->. simpl.
  by destruct (negb (loose_eq new old)).
Qed.

(** X3. If no queued cell finds its computed state different from its
    state, the step writes nothing and empties the queue: the grid is a
    fixed point and every later step is a no-op. *)
Theorem step_without_change_is_fixed_point (dim : dims) (tbl : ruletable)
    (w : world) (n : nat) :
  Forall (fun c => value_of (changes dim tbl c w) = Some false) (queue w) ->
  updateCells dim tbl w
    = Done tt {| heap := heap w; grid := grid w; queue := [] |} /\
  ticks dim tbl (S n) w
    = Done tt {| heap := heap w; grid := grid w; queue := [] |}.
Proof.
  intros Hall.
  assert (Hloop : forall qu nq,
             Forall (fun c => value_of (changes dim tbl c w) = Some false) qu ->
             forEach_update dim tbl (grid w) qu nq w = Done nq w).
  { intros qu nq Hqu. induction Hqu as [|c qu Hc _ IH]; simpl; [done|].
    unfold bind. by rewrite (updateCell_unchanged _ _ _ _ _ _ Hc). }
  assert (E : updateCells dim tbl w
              = Done tt {| heap := heap w; grid := grid w; queue := [] |}).
  { unfold updateCells, slice. by rewrite (Hloop _ _ Hall). }
  split; [exact E|].
  simpl. unfold bind. rewrite E. clear E Hall Hloop.
  generalize (heap w) (grid w). intros h g.
  induction n as [|n IH]; simpl; [done|].
  unfold bind. simpl. exact IH.
Qed.

Lemma step_without_change_is_fixed_point_witness :
  updateCells grid5 rules block_world
    = Done tt {| heap := heap block_world; grid := grid block_world;
                 queue := [] |} /\
  ticks grid5 rules 3 block_world
    = Done tt {| heap := heap block_world; grid := grid block_world;
                 queue := [] |}.
Proof.
  apply (step_without_change_is_fixed_point grid5 rules block_world 2).
  apply (bool_decide_unpack _). vm_compute. exact I.
Defined.

Lemma forEach_update_length (dim : dims) (tbl : ruletable) (g : list loc)
    (qu nq nq' : list cell) (w w' : world) :
  forEach_update dim tbl g qu nq w = Done nq' w' ->
  (length nq' <= length nq + 8 * length qu)%nat.
Proof.
  revert nq w. induction qu as [|c qu IH]; intros nq w; simpl.
  - intros [= <- _]. lia.
  - unfold bind.
    destruct (updateCell dim tbl g nq c w) as [nq1 w1|] eqn:E; [|discriminate].
    apply updateCell_Done in E as (_ & _ & Hnq). intros E'.
    apply IH in E'.
    destruct Hnq as [->| ->]; [lia|].
    rewrite length_app in E'. simpl in E'. lia.
Qed.

(** Distinct normalized coordinates are at most as many as the cells. *)
Lemma in_range_NoDup_length (dim : dims) (l : list cell) :
  0 < width dim -> 0 < height dim ->
  Forall (in_range dim) l -> NoDup l ->
  Z.of_nat (length l) <= width dim * height dim.
Proof.
  intros HW HH Hin Hnd.
  set (f := fun c : cell => cell_x c * height dim + cell_y c).
  assert (Hnd' : NoDup (f <$> l)).
  { apply NoDup_fmap_2_strong; [|done].
    intros c d Hc Hd Hf. rewrite Forall_forall in Hin.
    destruct (Hin c Hc) as [Hcx Hcy]. destruct (Hin d Hd) as [Hdx Hdy].
    unfold f in Hf. destruct c as [cx cy], d as [dx dy]. simpl in *.
    assert (cx = dx) by nia. subst. f_equal. lia. }
  assert (Hsub : f <$> l ⊆+ seqZ 0 (width dim * height dim)).
  { apply NoDup_submseteq; [done|].
    intros z (c & -> & Hc)%list_elem_of_fmap.
    rewrite Forall_forall in Hin. destruct (Hin c Hc) as [Hcx Hcy].
    apply elem_of_seqZ. unfold f. nia. }
  apply submseteq_length in Hsub.
  rewrite length_fmap, length_seqZ in Hsub. nia.
Qed.

(** X4. The queue a step returns holds at most eight entries for each
    queued cell and, for positive dimensions, at most as many entries as the
    grid has cells. *)
Theorem next_queue_size (dim : dims) (tbl : ruletable) (w w' : world) :
  0 < width dim -> 0 < height dim ->
  updateCells dim tbl w = Done tt w' ->
  (length (queue w') <= 8 * length (queue w))%nat /\
  Z.of_nat (length (queue w')) <= width dim * height dim.
Proof.
  intros HW HH E.
  pose proof (updateCells_in_range dim tbl w w' HW HH E) as Hin.
  apply updateCells_Done_inv in E as (nq & w1 & E & ->). simpl in *.
  split.
  - apply forEach_update_length in E. simpl in E.
    pose proof (sublist_length _ _ (sublist_cleanQueue nq)). lia.
  - apply in_range_NoDup_length; [done..|apply NoDup_cleanQueue].
Qed.

Lemma next_queue_size_witness :
  exists w', updateCells grid5 rules lone_world = Done tt w' /\
    (length (queue w') <= 8 * length (queue lone_world))%nat /\
    Z.of_nat (length (queue w')) <= width grid5 * height grid5.
Proof.
  eexists. split; [vm_compute; reflexivity|].
  apply (next_queue_size grid5 rules lone_world);
    vm_compute; reflexivity.
Defined.

(** ** Cell access: writes, reads, toggles *)

Section Access.

Variable dim : dims.
Hypothesis HW : 0 < width dim.
Hypothesis HH : 0 < height dim.

(** A write at row [x] of the grid, read back through the outer array. *)
Lemma write_read (w : world) (x y : Z) (s : value) :
  wf_grid dim w -> NoDup (grid w) -> 0 <= x < width dim ->
  exists w', write (grid w) x y s w = Done s w' /\
    grid w' = grid w /\ queue w' = queue w /\
    forall x' y', 0 <= x' < width dim ->
      value_of (read (grid w) x' y' w') =
      if decide (x' = x /\ y' = y) then Some s
      else value_of (read (grid w) x' y' w).
Proof.
  clear HW HH. intros [Hlen Hrows] Hnd Hx. unfold write.
  destruct (js_index_in (grid w) x) as [l Hl]; [lia|]. rewrite Hl.
  apply js_index_Some in Hl as [_ Hl].
  destruct (Hrows _ _ Hl) as (r & Hr & _). rewrite Hr.
  eexists. split; [reflexivity|]. split; [reflexivity|].
  split; [reflexivity|].
  intros x' y' Hx'. unfold read.
  destruct (js_index_in (grid w) x') as [l' Hl']; [lia|]. rewrite Hl'.
  apply js_index_Some in Hl' as [_ Hl'].
  destruct (Hrows _ _ Hl') as (r' & Hr' & _).
  simpl. unfold loc in *. rewrite Hr'.
  destruct (decide (l = l')) as [<-|Hne].
  - assert (Hxx : x' = x).
    { pose proof (NoDup_lookup _ _ _ _ Hnd Hl Hl'). lia. }
    subst x'. rewrite list_lookup_insert_eq by (by eapply lookup_lt_Some).
    assert (r' = r) as -> by congruence. simpl.
    destruct (decide (y = y')) as [<-|Hyy].
    + rewrite lookup_insert_eq, decide_True; done.
    + rewrite lookup_insert_ne by done.
      rewrite decide_False; [done|]. by intros [_ ->].
  - rewrite list_lookup_insert_ne by done. rewrite Hr'. simpl.
    rewrite decide_False; [done|]. intros [-> _]. congruence.
Qed.

(** X5. [setCell(x, y, state)] with [x] inside the grid, read back with
    [getCell]: a read at [(x', y')] gives [state] exactly when [x'] and [y']
    wrap to [x] and [y], and what it gave before otherwise.  So a cell
    written at a normalized coordinate reads back what was written, every
    other cell is untouched, and a write at a [y] outside [[0, H)], which
    [setCell] does not wrap, changes nothing that [getCell] can read. *)
Theorem setCell_getCell (w : world) (x y : Z) (s : value) :
  wf_grid dim w -> NoDup (grid w) -> 0 <= x < width dim ->
  exists w', setCell x y s w = Done tt w' /\
    grid w' = grid w /\ queue w' = queue w /\
    (forall x' y',
       value_of (getCell dim x' y' w') =
       if decide (wrap x' (width dim) = x /\ wrap y' (height dim) = y)
       then Some s else value_of (getCell dim x' y' w)) /\
    (0 <= y < height dim -> value_of (getCell dim x y w') = Some s) /\
    (~ 0 <= y < height dim ->
     forall x' y',
       value_of (getCell dim x' y' w') = value_of (getCell dim x' y' w)).
Proof.
  intros Hwf Hnd Hx.
  destruct (write_read w x y s Hwf Hnd Hx) as (w' & E & Hg & Hq & Hrd).
  exists w'. unfold setCell, bind. rewrite E. split; [reflexivity|].
  split; [exact Hg|]. split; [exact Hq|].
  assert (Hget : forall x' y',
             value_of (getCell dim x' y' w') =
             if decide (wrap x' (width dim) = x /\ wrap y' (height dim) = y)
             then Some s else value_of (getCell dim x' y' w)).
  { intros x' y'. unfold getCell. rewrite Hg.
    apply Hrd. by apply wrap_range. }
  split; [exact Hget|]. split.
  - intros Hy. rewrite Hget, decide_True; [done|].
    rewrite !wrap_mod, !Z.mod_small by lia. done.
  - intros Hy x' y'. rewrite Hget, decide_False; [done|].
    intros [_ Hy']. pose proof (wrap_range y' (height dim) HH). lia.
Qed.

(** X6. [toggleCell(x, y)] at a normalized coordinate returns the negation
    of the cell, as a boolean, and stores it: that cell changes between dead
    and alive and no other cell does.  Two toggles give every cell back its
    dead-or-alive state.  With [x] outside the outer array it throws and
    changes nothing. *)
Theorem toggleCell_flips (w : world) (c : cell) :
  wf_grid dim w -> NoDup (grid w) -> in_range dim c ->
  (exists w', toggleCell (cell_x c) (cell_y c) w
              = Done (VBool (negb (alive_at dim w c))) w' /\
     wf_grid dim w' /\ grid w' = grid w /\ queue w' = queue w /\
     forall c', in_range dim c' ->
       alive_at dim w' c' =
       if decide (c' = c) then negb (alive_at dim w c)
       else alive_at dim w c') /\
  (exists w'',
     bind (toggleCell (cell_x c) (cell_y c))
          (fun _ => toggleCell (cell_x c) (cell_y c)) w
     = Done (VBool (alive_at dim w c)) w'' /\
     forall c', in_range dim c' -> alive_at dim w'' c' = alive_at dim w c') /\
  (forall x y, ~ 0 <= x < width dim -> toggleCell x y w = TypeError w).
Proof.
  intros Hwf Hnd Hc.
  assert (Hone : forall w0, wf_grid dim w0 -> NoDup (grid w0) ->
             exists w', toggleCell (cell_x c) (cell_y c) w0
                        = Done (VBool (negb (alive_at dim w0 c))) w' /\
               wf_grid dim w' /\ grid w' = grid w0 /\ queue w' = queue w0 /\
               forall c', in_range dim c' ->
                 alive_at dim w' c' =
                 if decide (c' = c) then negb (alive_at dim w0 c)
                 else alive_at dim w0 c').
  { intros w0 Hwf0 Hnd0. destruct Hc as [Hx Hy].
    destruct (read_wf dim w0 (cell_x c) (cell_y c) Hwf0 Hx Hy)
      as (v & Ev & _).
    assert (Ha : alive_at dim w0 c = ToBoolean v).
    { unfold alive_at, getCell.
      rewrite !wrap_mod, !Z.mod_small by lia. by rewrite Ev. }
    unfold toggleCell, bind. rewrite Ev. unfold js_not. rewrite <- Ha.
    destruct (write_alive dim HW HH w0 c (VBool (negb (alive_at dim w0 c)))
                Hwf0 Hnd0 (conj Hx Hy) eq_refl)
      as (w' & E & Hwf' & Hg & Hal).
    exists w'. split; [exact E|]. split; [exact Hwf'|]. split; [exact Hg|].
    split; [|exact Hal]. by apply write_frame in E as [_ ?]. }
  destruct (Hone w Hwf Hnd) as (w' & E & Hwf' & Hg & Hq & Hal).
  split; [by exists w'|]. split.
  - destruct (Hone w') as (w'' & E' & _ & _ & _ & Hal');
      [done|by rewrite Hg|].
    exists w''. unfold bind. rewrite E. split.
    + rewrite E'. rewrite (Hal c Hc), decide_True by done.
      by rewrite negb_involutive.
    + intros c' Hc'. rewrite (Hal' c' Hc'), !(Hal _) by done.
      case_decide; [|done]. rewrite decide_True by done.
      subst c'. by rewrite negb_involutive.
  - intros x y Hx. unfold toggleCell, bind, read, js_index.
    destruct Hwf as [Hlen _].
    case_decide as H0; [|done].
    rewrite lookup_ge_None_2; [done|]. lia.
Qed.

End Access.

Lemma setCell_getCell_witness :
  exists w', setCell 3 4 (VNum 1) blinker_world = Done tt w' /\
    value_of (getCell grid5 (-2) 9 w') = Some (VNum 1) /\
    value_of (getCell grid5 3 3 w')
      = value_of (getCell grid5 3 3 blinker_world).
Proof.
  destruct (setCell_getCell grid5 eq_refl eq_refl blinker_world 3 4 (VNum 1))
    as (w' & E & _ & _ & Hget & _ & _).
  - apply wf_gridb_sound. vm_compute. reflexivity.
  - apply (bool_decide_unpack _). vm_compute. exact I.
  - cbn. lia.
  - exists w'. split; [exact E|]. split.
    + rewrite Hget. reflexivity.
    + rewrite Hget. reflexivity.
Defined.

Lemma toggleCell_flips_witness :
  exists w'',
    bind (toggleCell 2 2) (fun _ => toggleCell 2 2) blinker_world
    = Done (VBool (alive_at grid5 blinker_world (mkCell 2 2))) w'' /\
    forall c', in_range grid5 c' ->
      alive_at grid5 w'' c' = alive_at grid5 blinker_world c'.
Proof.
  destruct (toggleCell_flips grid5 eq_refl eq_refl blinker_world (mkCell 2 2))
    as (_ & H2 & _).
  - apply wf_gridb_sound. vm_compute. reflexivity.
  - apply (bool_decide_unpack _). vm_compute. exact I.
  - apply (bool_decide_unpack _). vm_compute. exact I.
  - exact H2.
Defined.

(** ** The initial grid *)

Lemma alive_cells_nil (dim : dims) (w : world) :
  (forall c, in_range dim c -> alive_at dim w c = false) ->
  alive_cells dim w = [].
Proof.
  intros Hdead. destruct (alive_cells dim w) as [|[x y] l] eqn:E; [done|].
  assert (Hin : (cell_x (mkCell x y), cell_y (mkCell x y))
                ∈ alive_cells dim w) by (rewrite E; left).
  apply alive_cells_spec in Hin as [Hr Ha].
  rewrite (Hdead _ Hr) in Ha. discriminate Ha.
Qed.

(** X7. [makeGrid(W, H)] for positive [W] and [H] builds [W] rows that are
    distinct objects, so a write to one row is not seen through another;
    every cell of the initial grid reads as the number 0 at every integer
    coordinate, no cell is alive, and the queue is empty. *)
Theorem init_all_dead (dim : dims) :
  0 < width dim -> 0 < height dim ->
  exists w, init dim = Done tt w /\
    wf_grid dim w /\ NoDup (grid w) /\ queue w = [] /\
    (forall x y, getCell dim x y w = Done (VNum 0) w) /\
    alive_cells dim w = [].
Proof.
  intros HW HH. unfold init, makeGrid. rewrite makeGrid_loop_spec. simpl.
  eexists. split; [reflexivity|].
  assert (Hget : forall x y,
             getCell dim x y
               {| heap := replicate (Z.to_nat (width dim))
                            (new_row (height dim));
                  grid := seq 0 (Z.to_nat (width dim)); queue := [] |}
             = Done (VNum 0)
                 {| heap := replicate (Z.to_nat (width dim))
                              (new_row (height dim));
                    grid := seq 0 (Z.to_nat (width dim)); queue := [] |}).
  { intros x y. unfold getCell, read. simpl.
    pose proof (wrap_range x (width dim) HW) as Hx.
    pose proof (wrap_range y (height dim) HH) as Hy.
    unfold js_index. rewrite decide_True by lia.
    rewrite lookup_seq_lt by lia. simpl.
    rewrite lookup_replicate_2 by lia.
    by rewrite new_row_lookup, decide_True. }
  split; [|split; [apply NoDup_seq|split; [done|split; [exact Hget|]]]].
  - destruct (init_wf dim) as (w & E & Hwf & _). revert E Hwf.
    unfold init, makeGrid. rewrite makeGrid_loop_spec. simpl.
    by intros [= <-].
  - apply alive_cells_nil. intros c _. unfold alive_at. by rewrite Hget.
Qed.

Lemma init_all_dead_witness :
  exists w, init dimensions = Done tt w /\
    wf_grid dimensions w /\ NoDup (grid w) /\ queue w = [] /\
    (forall x y, getCell dimensions x y w = Done (VNum 0) w) /\
    alive_cells dimensions w = [].
Proof. apply init_all_dead; reflexivity. Defined.

(** ** Which cells a step changes *)

Lemma live_count_ext (dim : dims) (w w' : world) (c : cell) :
  (forall n, n ∈ getNeighborCells dim (cell_x c) (cell_y c) ->
     alive_at dim w' n = alive_at dim w n) ->
  live_count dim w' c = live_count dim w c.
Proof.
  unfold live_count. generalize (getNeighborCells dim (cell_x c) (cell_y c)).
  intros l Hl. induction l as [|n l IH]; simpl; [done|].
  rewrite (Hl n) by left. rewrite IH; [done|].
  intros m Hm. apply Hl. by right.
Qed.

Section Frame.

Variable dim : dims.
Variable tbl : ruletable.
Hypothesis HW : 0 < width dim.
Hypothesis HH : 0 < height dim.
Hypothesis Htbl : wf_tbl tbl.

(** The step on a queue of normalized cells, cell by cell. *)
Lemma updateCells_alive (w : world) :
  wf_grid dim w -> NoDup (grid w) -> Forall (in_range dim) (queue w) ->
  exists nq wF,
    forEach_update dim tbl (grid w) (queue w) [] w = Done nq wF /\
    updateCells dim tbl w
    = Done tt {| heap := heap wF; grid := grid w; queue := cleanQueue nq |} /\
    grid wF = grid w /\
    forall c, in_range dim c -> c ∉ queue w ->
      alive_at dim wF c = alive_at dim w c.
Proof.
  intros Hwf Hnd Hin.
  destruct (forEach_update_alive dim tbl HW HH Htbl (queue w) [] w Hwf Hnd Hin)
    as (nq & wF & E & _ & Hg & Hal).
  exists nq, wF. split; [exact E|]. split; [|by split].
  unfold updateCells, slice. by rewrite E.
Qed.

(** X8. A step on a queue of normalized cells changes queued cells only:
    every cell that is not in the queue is dead or alive after the step as
    it was before. *)
Theorem step_changes_queued_cells_only (w : world) :
  wf_grid dim w -> NoDup (grid w) -> Forall (in_range dim) (queue w) ->
  exists w', updateCells dim tbl w = Done tt w' /\
    forall c, in_range dim c -> c ∉ queue w ->
      alive_at dim w' c = alive_at dim w c.
Proof.
  intros Hwf Hnd Hin.
  destruct (updateCells_alive w Hwf Hnd Hin) as (nq & wF & _ & E & Hg & Hal).
  eexists. split; [exact E|]. intros c Hc Hnot.
  rewrite <- (Hal c Hc Hnot). by apply alive_at_ext.
Qed.

(** The step on a queue of distinct normalized cells, none a neighbour of
    another: every queued cell sees its neighbours as they were before the
    step. *)
Lemma updateCells_apart (w : world) :
  wf_grid dim w -> NoDup (grid w) -> Forall (in_range dim) (queue w) ->
  NoDup (queue w) -> apart dim (queue w) ->
  exists w', updateCells dim tbl w = Done tt w' /\
    forall c, in_range dim c ->
      alive_at dim w' c =
      if decide (c ∈ queue w)
      then rule_bit tbl (alive_at dim w c) (live_count dim w c)
      else alive_at dim w c.
Proof.
  intros Hwf Hnd Hin Hndq Hapart.
  destruct (updateCells_alive w Hwf Hnd Hin) as (nq & wF & EF & E & Hg & Hal).
  eexists. split; [exact E|]. intros c Hc.
  rewrite (alive_at_ext dim
             {| heap := heap wF; grid := grid w; queue := cleanQueue nq |}
             wF c eq_refl (eq_sym Hg)).
  case_decide as Hcq; [|by apply Hal].
  pose proof Hcq as Hsplit.
  apply list_elem_of_split in Hsplit as (pre & post & Hsplit).
  destruct (forEach_update_at dim tbl HW HH Htbl pre post [] c w Hwf Hnd)
    as (nq1 & w1 & nq' & w' & _ & E' & _ & Hout & _ & Hrule);
    [by rewrite <- Hsplit..|].
  rewrite <- Hsplit, EF in E'. injection E' as <- <-.
  rewrite Hrule. f_equal. apply live_count_ext. intros n Hn.
  apply Hout; [by eapply getNeighborCells_in_range|].
  intros Hpre.
  assert (Hnq : n ∈ queue w).
  { rewrite Hsplit. apply elem_of_app. by left. }
  assert (Hne : c <> n).
  { intros <-. rewrite Hsplit in Hndq.
    apply NoDup_app in Hndq as (_ & Hdisj & _). apply (Hdisj c Hpre). left. }
  unfold apart in Hapart. rewrite Forall_forall in Hapart.
  specialize (Hapart c Hcq). rewrite Forall_forall in Hapart.
  exact (Hapart n Hnq Hne Hn).
Qed.

End Frame.

(** X9. When the queue holds distinct normalized cells of which none is a
    neighbour of another, the step is the synchronous update of the queued
    cells: each takes the state the rule table gives for its state and its
    live-neighbour count in the grid before the step, the other cells keep
    theirs, and the resulting cells are the same for every order of the
    queue. *)
Theorem step_synchronous_when_apart (dim : dims) (tbl : ruletable)
    (w : world) (qu' : list cell) :
  0 < width dim -> 0 < height dim -> wf_tbl tbl ->
  wf_grid dim w -> NoDup (grid w) -> Forall (in_range dim) (queue w) ->
  NoDup (queue w) -> apart dim (queue w) -> qu' ≡ₚ queue w ->
  exists w' w'',
    updateCells dim tbl w = Done tt w' /\
    updateCells dim tbl {| heap := heap w; grid := grid w; queue := qu' |}
      = Done tt w'' /\
    forall c, in_range dim c ->
      alive_at dim w' c =
        (if decide (c ∈ queue w)
         then rule_bit tbl (alive_at dim w c) (live_count dim w c)
         else alive_at dim w c) /\
      alive_at dim w'' c = alive_at dim w' c.
Proof.
  intros HW HH Htbl Hwf Hnd Hin Hndq Hapart Hperm.
  destruct (updateCells_apart dim tbl HW HH Htbl w Hwf Hnd Hin Hndq Hapart)
    as (w' & E & Hal).
  set (w2 := {| heap := heap w; grid := grid w; queue := qu' |}).
  assert (Hext : forall c, alive_at dim w2 c = alive_at dim w c).
  { intros c. by apply alive_at_ext. }
  destruct (updateCells_apart dim tbl HW HH Htbl w2) as (w'' & E2 & Hal2).
  - exact Hwf.
  - exact Hnd.
  - simpl. by rewrite Hperm.
  - simpl. by rewrite Hperm.
  - unfold apart. simpl. rewrite Hperm.
    unfold apart in Hapart. eapply Forall_impl; [exact Hapart|].
    intros c Hc. simpl in Hc. by rewrite Hperm.
  - exists w', w''. split; [exact E|]. split; [exact E2|].
    intros c Hc. split; [by apply Hal|].
    rewrite (Hal2 c Hc), (Hal c Hc). simpl. rewrite Hext.
    rewrite (live_count_ext dim w w2 c) by (intros; apply Hext).
    destruct (decide (c ∈ qu')) as [H1|H1],
             (decide (c ∈ queue w)) as [H2|H2];
      try done.
    + rewrite Hperm in H1. done.
    + rewrite <- Hperm in H2. done.
Qed.

Lemma step_changes_queued_cells_only_witness :
  exists w', updateCells grid5 rules blinker_world = Done tt w' /\
    forall c, in_range grid5 c -> c ∉ queue blinker_world ->
      alive_at grid5 w' c = alive_at grid5 blinker_world c.
Proof.
  apply (step_changes_queued_cells_only grid5 rules eq_refl eq_refl).
  - apply wf_tbl_rules.
  - apply wf_gridb_sound. vm_compute. reflexivity.
  - apply (bool_decide_unpack _). vm_compute. exact I.
  - apply (bool_decide_unpack _). vm_compute. exact I.
Defined.

Lemma step_synchronous_when_apart_witness :
  exists w' w'',
    updateCells grid5 rules pair_world = Done tt w' /\
    updateCells grid5 rules
      {| heap := heap pair_world; grid := grid pair_world;
         queue := [mkCell 2 2; mkCell 0 0] |} = Done tt w'' /\
    forall c, in_range grid5 c ->
      alive_at grid5 w' c =
        (if decide (c ∈ queue pair_world)
         then rule_bit rules (alive_at grid5 pair_world c)
                (live_count grid5 pair_world c)
         else alive_at grid5 pair_world c) /\
      alive_at grid5 w'' c = alive_at grid5 w' c.
Proof.
  apply (step_synchronous_when_apart grid5 rules pair_world
           [mkCell 2 2; mkCell 0 0] eq_refl eq_refl wf_tbl_rules).
  - apply wf_gridb_sound. vm_compute. reflexivity.
  - apply (bool_decide_unpack _). vm_compute. exact I.
  - apply (bool_decide_unpack _). vm_compute. exact I.
  - apply (bool_decide_unpack _). vm_compute. exact I.
  - apply (bool_decide_unpack _). vm_compute. exact I.
  - vm_compute. apply perm_swap.
Defined.

(** ** Neighbourhoods on the torus *)

Lemma wrap_wrap (c d : Z) : 0 < d -> wrap (wrap c d) d = wrap c d.
Proof. intros Hd. rewrite !wrap_mod by done. apply Z.mod_mod. lia. Qed.

Lemma wrap_succ_pred (c d : Z) :
  0 < d -> wrap (wrap (c + 1) d - 1) d = wrap c d.
Proof.
  intros Hd. rewrite !wrap_mod by done. rewrite Zminus_mod_idemp_l.
  f_equal. lia.
Qed.

Lemma wrap_pred_succ (c d : Z) :
  0 < d -> wrap (wrap (c - 1) d + 1) d = wrap c d.
Proof.
  intros Hd. rewrite !wrap_mod by done. rewrite Zplus_mod_idemp_l.
  f_equal. lia.
Qed.

(** X10. On a grid of positive dimensions the neighbourhood is symmetric:
    if [n] is among the neighbours of the cell at [(x, y)], for safe
    integers [x] and [y] (the range in which the additions of the code are
    exact), then that cell, normalized, is among the neighbours of [n].  So
    a change of [n] re-queues every cell that counts [n] as a neighbour. *)
Theorem neighbors_symmetric (dim : dims) (x y : Z) (n : cell) :
  0 < width dim -> 0 < height dim -> safe_dims dim ->
  safe_integer x -> safe_integer y ->
  n ∈ getNeighborCells dim x y ->
  getCellObj dim x y ∈ getNeighborCells dim (cell_x n) (cell_y n).
Proof.
  intros HW HH _ _ _ Hn. unfold getNeighborCells in Hn.
  repeat (apply elem_of_cons in Hn as [->|Hn]);
    [..|by apply elem_of_nil in Hn];
    unfold getNeighborCells, getCellObj; cbn [cell_x cell_y];
    rewrite ?wrap_wrap, ?wrap_succ_pred, ?wrap_pred_succ by done;
    repeat first [left | right].
Qed.

Lemma neighbors_symmetric_witness :
  getCellObj grid5 0 4 ∈ getNeighborCells grid5 4 0.
Proof.
  apply (neighbors_symmetric grid5 0 4 (mkCell 4 0));
    [reflexivity|reflexivity|split; vm_compute; discriminate..|].
  apply (bool_decide_unpack _). vm_compute. exact I.
Defined.

(** X11. On a grid less than three cells wide or high the wrapped offsets
    collide: [x+1] and [x-1] (or [y+1] and [y-1]) wrap to the same index, so
    the list of [getNeighborCells] names a cell twice. *)
Theorem neighbors_collide_on_small_grid (dim : dims) (x y : Z) :
  0 < width dim -> 0 < height dim ->
  width dim <= 2 \/ height dim <= 2 ->
  ~ NoDup (getNeighborCells dim x y).
Proof.
  intros HW HH Hsmall Hnd.
  assert (Hcollide : forall c d, 0 < d <= 2 -> wrap (c + 1) d = wrap (c - 1) d).
  { intros c d Hd. rewrite !wrap_mod by lia.
    replace (c + 1) with (c - 1 + 2) by lia.
    assert (d = 1 \/ d = 2) as [->| ->] by lia.
    - by rewrite !Z.mod_1_r.
    - apply (Z_mod_plus_full (c - 1) 1 2). }
  unfold getNeighborCells, getCellObj in Hnd.
  destruct Hsmall as [Hs|Hs].
  - rewrite (Hcollide x (width dim)) in Hnd by lia.
    apply NoDup_cons in Hnd as [Hnotin _]. apply Hnotin.
    do 3 right. left.
  - rewrite (Hcollide y (height dim)) in Hnd by lia.
    apply NoDup_cons in Hnd as [_ Hnd].
    apply NoDup_cons in Hnd as [_ Hnd].
    apply NoDup_cons in Hnd as [Hnotin _]. apply Hnotin.
    do 3 right. left.
Qed.

Lemma neighbors_collide_on_small_grid_witness :
  ~ NoDup (getNeighborCells narrow 0 3).
Proof.
  apply neighbors_collide_on_small_grid; [reflexivity|reflexivity|].
  left. cbn. lia.
Defined.

(** ** The chart *)

Lemma updateChart_loop_spec (n : nat) (qlen : Z) (ch : chart) :
  updateChart_loop n qlen ch =
  {| dps := dps ch ++ ((fun x => (x, qlen)) <$> seqZ (xVal ch) (Z.of_nat n));
     xVal := xVal ch + Z.of_nat n;
     yVal := match n with O => yVal ch | S _ => qlen end |}.
Proof.
  revert ch. induction n as [|n IH]; intros ch.
  - simpl. rewrite app_nil_r, Z.add_0_r. by destruct ch.
  - cbn [updateChart_loop]. rewrite IH. cbn [dps xVal yVal].
    rewrite (seqZ_cons (xVal ch) (Z.of_nat (S n))) by lia.
    rewrite fmap_cons, <- app_assoc. cbn [app].
    replace (Z.pred (Z.of_nat (S n))) with (Z.of_nat n) by lia.
    replace (Z.succ (xVal ch)) with (xVal ch + 1) by lia.
    f_equal; [lia|]. by destruct n.
Qed.

(** The number of points a call of [updateChart] pushes. *)
Lemma updateChart_spec (count : value) (w : world) (ch : chart) :
  let k := match ToNumber (or_1 count) with
           | Some n => Z.max 0 n
           | None => 0
           end in
  let pts := dps ch ++
             ((fun x => (x, Z.of_nat (length (queue w)))) <$>
              seqZ (xVal ch) k) in
  dps (updateChart count w ch)
    = (if Z.of_nat (length pts) >? dataLength then tail pts else pts) /\
  xVal (updateChart count w ch) = xVal ch + k.
Proof.
  intros k pts. unfold updateChart. rewrite updateChart_loop_spec.
  cbn [dps xVal].
  assert (Hk : Z.of_nat
                 (match ToNumber (or_1 count) with
                  | Some n => Z.to_nat n
                  | None => 0%nat
                  end) = k).
  { unfold k. destruct (ToNumber (or_1 count)); lia. }
  rewrite Hk. fold pts. by destruct (Z.of_nat (length pts) >? dataLength).
Qed.

(** X12. [updateChart(count)] appends [count] points with consecutive [x],
    starting at [xVal], and the current queue length as [y]: one point when
    [count] is missing or 0 and none when it is negative.  It then removes
    at most one point: the first one, when more than [dataLength] points
    are held.  So a call that appends [k >= 2] points to a full window
    leaves [dataLength + k - 1] points. *)
Theorem updateChart_points (count : value) (w : world) (ch : chart) :
  exists k,
    k = match ToNumber (or_1 count) with
        | Some n => Z.max 0 n
        | None => 0
        end /\
    (count = VUndef \/ count = VNum 0 -> k = 1) /\
    xVal (updateChart count w ch) = xVal ch + k /\
    Z.of_nat (length (dps (updateChart count w ch)))
      = Z.of_nat (length (dps ch)) + k
        - (if Z.of_nat (length (dps ch)) + k >? dataLength then 1 else 0) /\
    (0 < k ->
     last (dps (updateChart count w ch))
       = Some (xVal ch + k - 1, Z.of_nat (length (queue w)))) /\
    dps (updateChart count w ch) =
      (let pts := dps ch ++
                  ((fun x => (x, Z.of_nat (length (queue w)))) <$>
                   seqZ (xVal ch) k) in
       if Z.of_nat (length (dps ch)) + k >? dataLength
       then tail pts else pts).
Proof.
  destruct (updateChart_spec count w ch) as [Hd Hx].
  eexists. split; [reflexivity|].
  set (k := match ToNumber (or_1 count) with
            | Some n => Z.max 0 n
            | None => 0
            end) in *.
  assert (Hk0 : 0 <= k).
  { unfold k. destruct (ToNumber (or_1 count)); lia. }
  set (pts := dps ch ++
              ((fun x => (x, Z.of_nat (length (queue w)))) <$>
               seqZ (xVal ch) k)) in *.
  assert (Hlen : Z.of_nat (length pts) = Z.of_nat (length (dps ch)) + k).
  { unfold pts. rewrite length_app, length_fmap, length_seqZ. lia. }
  split; [by intros [->| ->]|]. split; [exact Hx|]. split.
  - rewrite Hd, Hlen.
    destruct (Z.of_nat (length (dps ch)) + k >? dataLength) eqn:E; [|lia].
    apply Z.gtb_lt in E. unfold dataLength in E.
    assert (Htl : length (tail pts) = pred (length pts))
      by (by destruct pts).
    rewrite Htl. lia.
  - split; [|cbv zeta; fold pts; rewrite Hd, Hlen; reflexivity].
    intros Hk.
    assert (Hlast : last pts
                    = Some (xVal ch + k - 1, Z.of_nat (length (queue w)))).
    { unfold pts. replace k with (Z.of_nat (S (Z.to_nat (k - 1)))) by lia.
      rewrite seqZ_S, fmap_app, app_assoc. cbn [fmap list_fmap].
      rewrite last_snoc. do 2 f_equal. lia. }
    rewrite Hd. destruct (Z.of_nat (length pts) >? dataLength) eqn:E;
      [|exact Hlast].
    destruct pts as [|p [|q pts']]; [done| |done].
    exfalso. unfold dataLength in E. simpl in E. discriminate E.
Qed.

Lemma updateChart_points_witness :
  xVal (updateChart (VNum 3) blinker_world chart_loaded) = 23 /\
  Z.of_nat (length (dps (updateChart (VNum 3) blinker_world chart_loaded)))
    = 22 /\
  last (dps (updateChart (VNum 3) blinker_world chart_loaded))
    = Some (22, 15).
Proof.
  destruct (updateChart_points (VNum 3) blinker_world chart_loaded)
    as (k & -> & _ & Hx & Hlen & Hlast & _).
  split; [exact Hx|]. split; [exact Hlen|]. apply Hlast. reflexivity.
Defined.

(** X13. The chart is a sliding window.  When the script has run the chart
    holds [dataLength] points with consecutive [x]; every tick that
    completes moves the window by one: it still holds [dataLength] points
    with consecutive [x], [xVal] is one more, and its last point is the
    previous [xVal] with the length of the queue that the step returned.  A
    tick whose step throws leaves the chart as it was. *)
Theorem tick_slides_chart_window (dim : dims) (tbl : ruletable)
    (w : world) (ch : chart) :
  chart_window chart_loaded /\
  (chart_window ch ->
   (forall w', updateCells dim tbl w = Done tt w' ->
      exists ch', tick dim tbl w ch = (Done tt w', ch') /\
        chart_window ch' /\
        Z.of_nat (length (dps ch')) = dataLength /\
        xVal ch' = xVal ch + 1 /\
        last (dps ch') = Some (xVal ch, Z.of_nat (length (queue w')))) /\
   (forall w', updateCells dim tbl w = TypeError w' ->
      tick dim tbl w ch = (TypeError w', ch))).
Proof.
  split; [vm_compute; reflexivity|].
  intros Hwin. split.
  - intros w' E. unfold tick. rewrite E. eexists. split; [reflexivity|].
    unfold chart_window in Hwin.
    assert (Hlen : length (dps ch) = 20%nat).
    { rewrite <- (length_fmap fst), Hwin, length_seqZ. reflexivity. }
    destruct (updateChart_spec VUndef w' ch) as [Hd Hx].
    cbn [or_1 ToBoolean ToNumber] in Hd, Hx.
    change (Z.max 0 1) with 1 in Hd, Hx.
    change (seqZ (xVal ch) 1) with [xVal ch] in Hd.
    cbn [fmap list_fmap] in Hd.
    rewrite length_app, Hlen in Hd. cbn in Hd.
    destruct (dps ch) as [|p pts] eqn:Edps; [discriminate Hlen|].
    cbn [app tail] in Hd.
    change (Z.of_nat 21 >? dataLength) with true in Hd. cbv iota in Hd.
    unfold chart_window. rewrite Hd, Hx.
    rewrite fmap_cons in Hwin.
    rewrite (seqZ_cons (xVal ch - dataLength) dataLength) in Hwin
      by (unfold dataLength; lia).
    injection Hwin as _ Hwin.
    split; [|split; [|split; [done|]]].
    + rewrite fmap_app, Hwin. cbn [fmap list_fmap fst].
      unfold dataLength. change (Z.pred 20) with (Z.of_nat 19).
      transitivity (seqZ (Z.succ (xVal ch - 20)) (Z.of_nat (S 19))).
      * rewrite (seqZ_S _ 19). do 2 f_equal. lia.
      * f_equal. lia.
    + rewrite length_app. cbn [length] in *. unfold dataLength. lia.
    + by rewrite last_snoc.
  - intros w' E. unfold tick. by rewrite E.
Qed.

Lemma tick_slides_chart_window_witness :
  exists w' ch',
    tick grid5 rules blinker_world chart_loaded = (Done tt w', ch') /\
    chart_window ch' /\
    xVal ch' = xVal chart_loaded + 1 /\
    last (dps ch') = Some (xVal chart_loaded, Z.of_nat (length (queue w'))).
Proof.
  destruct (tick_slides_chart_window grid5 rules blinker_world chart_loaded)
    as [Hload Hstep].
  destruct (Hstep Hload) as [Hdone _].
  eexists.
  destruct (Hdone _ ltac:(vm_compute; reflexivity))
    as (ch' & E & Hwin & _ & Hx & Hlast).
  exists ch'. split; [exact E|]. split; [exact Hwin|]. split; assumption.
Defined.

(** ** A step on a single queued cell *)

Lemma getNeighborCells_NoDup (dim : dims) (x y : Z) :
  3 <= width dim -> 3 <= height dim -> NoDup (getNeighborCells dim x y).
Proof.
  intros HW HH. unfold getNeighborCells, getCellObj.
  rewrite !wrap_mod by lia.
  pose proof (mod_apart x (x + 1) (width dim) ltac:(lia)) as X01.
  pose proof (mod_apart (x - 1) x (width dim) ltac:(lia)) as Xm0.
  pose proof (mod_apart (x - 1) (x + 1) (width dim) ltac:(lia)) as Xm1.
  pose proof (mod_apart y (y + 1) (height dim) ltac:(lia)) as Y01.
  pose proof (mod_apart (y - 1) y (height dim) ltac:(lia)) as Ym0.
  pose proof (mod_apart (y - 1) (y + 1) (height dim) ltac:(lia)) as Ym1.
  repeat (apply NoDup_cons; split;
          [rewrite ?not_elem_of_cons; repeat split;
           try apply not_elem_of_nil; intros [=]; congruence|]).
  apply NoDup_nil_2.
Qed.

Lemma states_loose_eq (a b : value) :
  is_state a = true -> is_state b = true ->
  ToBoolean a = ToBoolean b -> loose_eq a b = true.
Proof.
  by destruct a as [[|[| |]|]|[|]|], b as [[|[| |]|]|[|]|].
Qed.

(** X14. A step whose queue is one normalized cell, on a grid at least
    three cells wide and high: the cell takes the state the rule table gives
    for its state and its live-neighbour count, every other cell keeps its
    state, and the next queue is the list of its eight neighbours, in the
    order of [getNeighborCells], when the cell changed between dead and
    alive, and empty when it did not. *)
Theorem single_cell_step (dim : dims) (tbl : ruletable) (w : world)
    (c : cell) :
  3 <= width dim -> 3 <= height dim -> wf_tbl tbl ->
  wf_grid dim w -> NoDup (grid w) -> in_range dim c -> queue w = [c] ->
  exists w', updateCells dim tbl w = Done tt w' /\
    alive_at dim w' c
      = rule_bit tbl (alive_at dim w c) (live_count dim w c) /\
    (forall c', in_range dim c' -> c' <> c ->
       alive_at dim w' c' = alive_at dim w c') /\
    queue w' =
      if bool_decide (alive_at dim w' c = alive_at dim w c) then []
      else getNeighborCells dim (cell_x c) (cell_y c).
Proof.
  intros HW3 HH3 Htbl Hwf Hnd Hc Hq.
  assert (HW : 0 < width dim) by lia. assert (HH : 0 < height dim) by lia.
  unfold updateCells, slice. rewrite Hq. cbn [forEach_update].
  unfold bind at 1. unfold updateCell, bind.
  destruct (getCell_alive dim HW HH w c Hwf) as (old & -> & Hold & Ha).
  rewrite (getNeighborCount_live dim HW HH w c Hwf).
  destruct (nextState_bit tbl Htbl w old (live_count dim w c)
              (live_count_range dim w c))
    as (new & -> & Hnew & Hbit).
  rewrite Ha, <- Hbit.
  destruct (loose_eq new old) eqn:Heq; cbn [negb].
  - cbn [ret]. eexists. split; [reflexivity|].
    assert (Hsame : ToBoolean new = ToBoolean old)
      by (by apply loose_eq_states).
    assert (Hal : forall c', alive_at dim
                    {| heap := heap w; grid := grid w;
                       queue := cleanQueue [] |} c' = alive_at dim w c').
    { intros c'. by apply alive_at_ext. }
    rewrite !Hal, Ha. split; [by rewrite Hsame|]. split; [by intros|].
    cbn [queue]. by rewrite bool_decide_eq_true_2.
  - unfold setCellInGrid.
    destruct (write_alive dim HW HH w c new Hwf Hnd Hc Hnew)
      as (w1 & -> & _ & Hg & Hal1).
    cbn [ret app]. eexists. split; [reflexivity|].
    assert (Hal : forall c', alive_at dim
                    {| heap := heap w1; grid := grid w;
                       queue := cleanQueue
                                  (getNeighborCells dim (cell_x c)
                                     (cell_y c)) |} c'
                  = alive_at dim w1 c').
    { intros c'. by apply alive_at_ext. }
    rewrite !Hal, (Hal1 c Hc), decide_True by done. split; [done|]. split.
    + intros c' Hc' Hne. by rewrite Hal, (Hal1 c' Hc'), decide_False.
    + cbn [queue].
      rewrite (cleanQueue_NoDup_id _ (getNeighborCells_NoDup dim _ _ HW3 HH3)).
      rewrite bool_decide_eq_false_2; [done|].
      intros Hsame.
      rewrite (states_loose_eq new old Hnew Hold Hsame) in Heq.
      discriminate Heq.
Qed.

Lemma single_cell_step_witness :
  exists w', updateCells grid5 rules lone_world = Done tt w' /\
    alive_at grid5 w' (mkCell 2 2) = false /\
    queue w' = getNeighborCells grid5 2 2.
Proof.
  destruct (single_cell_step grid5 rules lone_world (mkCell 2 2))
    as (w' & E & Hc & _ & Hq).
  - cbn. lia.
  - cbn. lia.
  - apply wf_tbl_rules.
  - apply wf_gridb_sound. vm_compute. reflexivity.
  - apply (bool_decide_unpack _). vm_compute. exact I.
  - apply (bool_decide_unpack _). vm_compute. exact I.
  - vm_compute. reflexivity.
  - exists w'. split; [exact E|].
    assert (Hdead : alive_at grid5 w' (mkCell 2 2) = false).
    { rewrite Hc. vm_compute. reflexivity. }
    split; [exact Hdead|]. rewrite Hq, Hdead. reflexivity.
Defined.
